(** * ToDoList: the task store of the to-do panel

    A shallow embedding of the model classes of [ToDoList.py] ([Task] and
    [TaskStore]) and of the two functions that persist them
    ([TaskStore.loadTasks] and [MainWindow.saveSettingsAndTasks]).

    Python objects are mutable and compared by identity, so a task is a
    location in an object heap and [TaskStore.tasks] is a list of
    locations.  Python integers are unbounded: they are [Z]. *)

From stdpp Require Import gmap strings list sorting.
From Stdlib Require Import ZArith Lia Ascii DecimalString DecimalZ.

Local Open Scope Z_scope.

(** ** Task *)

(** [class Task]: the four attributes set by [__init__].  [name] is whatever
    [findtext] or [QLineEdit] delivered: a string, or Python's [None]. *)
Record Task := mkTask {
  name : option string;
  priority : Z;
  status : Z;
  index : Z
}.

(** [Task.__init__(name, priority, status)]: [self.index = 0]. *)
Definition Task_init (n : option string) (p s : Z) : Task := mkTask n p s 0.

(** [Task()] with the default arguments of [__init__]. *)
Definition Task_default : Task := Task_init (Some "new task"%string) 1 0.

(** [task.index = i] *)
Definition set_index (i : Z) (t : Task) : Task :=
  mkTask (name t) (priority t) (status t) i.

(** The attributes a recompute pass is not supposed to touch. *)
Definition fields (t : Task) : option string * Z * Z :=
  (name t, priority t, status t).

(** ** TaskStore *)

(** The object heap together with [self.tasks]. *)
Record TaskStore := mkStore {
  heap : gmap positive Task;
  tasks : list positive
}.

(** Assignment to the [index] attribute of the object at [l]. *)
Definition assign (l : positive) (i : Z) (h : gmap positive Task) : gmap positive Task :=
  alter (set_index i) l h.

(** [for i, task in enumerate(ls): task.index = i], counting from [i]. *)
Fixpoint enumerate_assign (i : Z) (ls : list positive) (h : gmap positive Task)
  : gmap positive Task :=
  match ls with
  | [] => h
  | l :: ls' => enumerate_assign (i + 1) ls' (assign l i h)
  end.

(** [TaskStore.resetTasks] *)
Definition resetTasks (st : TaskStore) : TaskStore :=
  mkStore (enumerate_assign 0 (tasks st) (heap st)) (tasks st).

(** The body of the loop of [filterFinished]:
    [if hideFinished and task.status == 2: task.index = -1]. *)
Definition hide_step (hideFinished : bool) (h : gmap positive Task) (l : positive)
  : gmap positive Task :=
  match h !! l with
  | Some t => if hideFinished && (status t =? 2) then assign l (-1) h else h
  | None => h
  end.

(** [TaskStore.filterFinished] *)
Definition filterFinished (hideFinished : bool) (st : TaskStore) : TaskStore :=
  mkStore (foldl (hide_step hideFinished) (heap st) (tasks st)) (tasks st).

(** [t.index >= 0], read through the heap. *)
Definition shown (h : gmap positive Task) (l : positive) : bool :=
  match h !! l with
  | Some t => 0 <=? index t
  | None => false
  end.

(** [lambda task: task.priority] *)
Definition prio (h : gmap positive Task) (l : positive) : Z :=
  from_option priority 0 (h !! l).

(** [sorted(xs, key=...)] is a stable sort: among the permutations of [xs]
    that are ordered by key it is the one that keeps equal keys in their
    original order.  Insertion from the right computes that list. *)
Section Sorted.
Context {A : Type} (key : A → Z).

Fixpoint insert_by (x : A) (l : list A) : list A :=
  match l with
  | [] => [x]
  | y :: l' => if key x <=? key y then x :: y :: l' else y :: insert_by x l'
  end.

Definition sorted_by (l : list A) : list A := foldr insert_by [] l.
End Sorted.

(** [TaskStore.sortByPriority] *)
Definition display_order (active : bool) (h : gmap positive Task) (ls : list positive)
  : list positive :=
  let sortedTasks := sorted_by (prio h) (filter (λ l, shown h l) ls) in
  if active then reverse sortedTasks else sortedTasks.

Definition sortByPriority (active : bool) (st : TaskStore) : TaskStore :=
  let sortedTasks := display_order active (heap st) (tasks st) in
  mkStore (enumerate_assign 0 (filter (λ l, shown (heap st) l) sortedTasks) (heap st))
          (tasks st).

(** [MainWindow.applyFilterAndSorting], without the repaint. *)
Definition applyFilterAndSorting (hideFinished sortState : bool) (st : TaskStore)
  : TaskStore :=
  sortByPriority sortState (filterFinished hideFinished (resetTasks st)).

(** [TaskStore.addTask]: [Task()] allocates a new object. *)
Definition addTask (st : TaskStore) : TaskStore * positive :=
  let newTask := fresh (dom (heap st)) in
  (mkStore (<[newTask := Task_default]> (heap st)) (newTask :: tasks st), newTask).

(** [TaskStore.deleteTask]; [taskToDelete] is [self.sender().parent().task].
    [Task] defines no [__eq__], so [!=] is identity. *)
Definition deleteTask (taskToDelete : positive) (st : TaskStore) : TaskStore :=
  let h := assign taskToDelete (-2) (heap st) in
  resetTasks (mkStore h (filter (λ task, taskToDelete ≠ task) (tasks st))).

(** ** Persistence *)

(** *** Builtins: [str] and [int] on integers *)

(** [str(v)] for an integer: its decimal numeral, ["-"] in front of a
    negative one. *)
Definition py_str (z : Z) : string := NilEmpty.string_of_int (Z.to_int z).

(** The characters [int] skips around a numeral. *)
Definition py_isspace (a : ascii) : bool :=
  bool_decide (a ∈ [" "; "009"; "010"; "011"; "012"; "013"]%char).

Fixpoint lstrip (s : string) : string :=
  match s with
  | String a s' => if py_isspace a then lstrip s' else s
  | EmptyString => EmptyString
  end.

Fixpoint rstrip (s : string) : string :=
  match s with
  | String a s' =>
      match rstrip s' with
      | EmptyString => if py_isspace a then EmptyString else String a EmptyString
      | r => String a r
      end
  | EmptyString => EmptyString
  end.

(** A non-empty run of decimal digits. *)
Definition py_digits (s : string) : option Z :=
  match s with
  | EmptyString => None
  | _ => Z.of_uint <$> NilEmpty.uint_of_string s
  end.

(** [int(s)] for a string: surrounding whitespace, an optional sign, decimal
    digits; [None] stands for [ValueError]. *)
Definition py_int (s : string) : option Z :=
  match lstrip (rstrip s) with
  | String "-" s' => Z.opp <$> py_digits s'
  | String "+" s' => py_digits s'
  | s' => py_digits s'
  end.

(** *** Exceptions *)

Inductive exn := ParseError | TypeError | ValueError.

Inductive result (A : Type) :=
  | Return (a : A)
  | Raise (e : exn).
Arguments Return {A} a.
Arguments Raise {A} e.

(** Sequencing: an exception ends the computation. *)
#[global] Instance result_bind : MBind result := λ A B k r,
  match r with
  | Return a => k a
  | Raise e => Raise e
  end.

(** [int(v)] where [v] is what [findtext] returned. *)
Definition int_ (v : option string) : result Z :=
  match v with
  | None => Raise TypeError
  | Some s => from_option Return (Raise ValueError) (py_int s)
  end.

(** *** ElementTree *)

(** An [ElementTree.Element]: tag, text and children.  The byte syntax of
    XML is the library's business; files are modelled by what [ET.parse]
    makes of them. *)
#[local] Set Warnings "-register-all".
Inductive Element := mkElement (tag : string) (text : option string) (children : list Element).

Definition tag (e : Element) : string := let 'mkElement t _ _ := e in t.
Definition text (e : Element) : option string := let 'mkElement _ x _ := e in x.
Definition children (e : Element) : list Element := let 'mkElement _ _ c := e in c.

(** [ET.SubElement(parent, k)] followed by [.text = v], for a leaf. *)
Definition leaf (k v : string) : Element := mkElement k (Some v) [].

(** [e.findall(k)], [e.find(k)], [e.findtext(k)] for a plain tag [k]:
    the children with that tag, the first of them, and its text, where an
    element without text yields the empty string. *)
Definition findall (k : string) (e : Element) : list Element :=
  filter (λ c, tag c = k) (children e).

Definition find (k : string) (e : Element) : option Element := head (findall k e).

Definition findtext (k : string) (e : Element) : option string :=
  (λ c, default ""%string (text c)) <$> find k e.

(** What is in a file: something [ET.parse] rejects, or a document. *)
Inductive file := NotXml | Xml (root : Element).

(** An element with empty text is written as an empty tag and read back
    without text. *)
Fixpoint reparse (e : Element) : Element :=
  match e with
  | mkElement t x cs =>
      mkElement t (match x with Some EmptyString => None | _ => x end)
                (map reparse cs)
  end.

(** [ET.ElementTree(root).write(path)] *)
Definition ET_write (path : string) (root : Element) (fs : gmap string file)
  : gmap string file :=
  <[path := Xml (reparse root)]> fs.

(** [ET.parse(path).getroot()] on an existing file. *)
Definition ET_parse (f : file) : result Element :=
  match f with
  | NotXml => Raise ParseError
  | Xml root => Return root
  end.

(** *** TaskStore.loadTasks *)

(** [Task(name=te.findtext('name'), priority=int(...), status=int(...))] *)
Definition load_task (te : Element) : result Task :=
  p ← int_ (findtext "priority" te) ;
  s ← int_ (findtext "status" te) ;
  Return (Task_init (findtext "name" te) p s).

(** [for te in taskElements: ...; taskList.append(task)] *)
Fixpoint load_loop (taskElements : list Element) (taskList : list Task)
  : result (list Task) :=
  match taskElements with
  | [] => Return taskList
  | te :: rest => task ← load_task te ; load_loop rest (taskList ++ [task])
  end.

(** [os.path.isfile(p)] is [is_Some (fs !! p)]. *)
Definition loadTasks (fs : gmap string file) (tasksFile : string) : result (list Task) :=
  match fs !! tasksFile with
  | Some f =>
      root ← ET_parse f ;
      let taskElements := findall "Task" root in
      match taskElements with
      | [] => Return [Task_default]
      | _ => load_loop taskElements []
      end
  | None => Return [Task_default]
  end.

(** The objects [loadTasks] created, put on the heap in list order. *)
Definition alloc (st : TaskStore) (t : Task) : TaskStore :=
  let l := fresh (dom (heap st)) in
  mkStore (<[l := t]> (heap st)) (tasks st ++ [l]).

(** [TaskStore.__init__] *)
Definition TaskStore_init (fs : gmap string file) (tasksFile : string) : result TaskStore :=
  ts ← loadTasks fs tasksFile ;
  Return (resetTasks (foldl alloc (mkStore ∅ []) ts)).

(** *** MainWindow.saveSettingsAndTasks *)

(** [str(v)] for the value of attribute [k] of a task. *)
Definition attr_str (t : Task) (k : string) : string :=
  if decide (k = "name"%string) then default "None"%string (name t)
  else if decide (k = "priority"%string) then py_str (priority t)
  else if decide (k = "status"%string) then py_str (status t)
  else py_str (index t).

(** The keys of [task.__dict__]. *)
Definition Task_keys : list string := ["name"; "priority"; "status"; "index"]%string.

(** [str(b)] for a bool. *)
Definition str_bool (b : bool) : string := if b then "True"%string else "False"%string.

(** The [Task] element built for one task; [keys] is the order in which
    [task.__dict__.iteritems()] runs. *)
Definition Task_element (keys : list string) (t : Task) : Element :=
  mkElement "Task" None (map (λ k, leaf k (attr_str t k)) keys).

(** The tasks of the store, read through the heap. *)
Definition stored (st : TaskStore) : list Task := omap (λ l, heap st !! l) (tasks st).

(** The document [saveSettingsAndTasks] builds.  [settings] is
    [settingsToBeSaved.iteritems()], in its order. *)
Definition document (settings : list (string * string)) (keys : list string)
    (st : TaskStore) : Element :=
  mkElement "ToDoPanel" None
    (mkElement "Settings" None (map (λ kv, leaf kv.1 kv.2) settings)
     :: map (Task_element keys) (stored st)).

(** [settingsToBeSaved], as filled from the two buttons. *)
Definition settingsToBeSaved (hideFinished sortState : bool) : list (string * string) :=
  [("hideFinished"%string, str_bool hideFinished); ("sortState"%string, str_bool sortState)].

Definition saveSettingsAndTasks (settings : list (string * string)) (keys : list string)
    (settingsFile : string) (st : TaskStore) (fs : gmap string file) : gmap string file :=
  ET_write settingsFile (document settings keys st) fs.

(** ** Stores the program can reach *)

(** [self.tasks] never holds the same object twice, and every reference in
    it is live: [loadTasks] and [addTask] only put new objects into the list
    and [deleteTask] only takes one out. *)
Definition wf (st : TaskStore) : Prop :=
  NoDup (tasks st) ∧ Forall (λ l, is_Some (heap st !! l)) (tasks st).

(** [task.index], read through the heap. *)
Definition index_at (st : TaskStore) (l : positive) : option Z :=
  index <$> heap st !! l.

(** [st'] differs from [st] in [index] attributes only. *)
Definition same_fields (st st' : TaskStore) : Prop :=
  tasks st' = tasks st ∧ ∀ l, fields <$> heap st' !! l = fields <$> heap st !! l.

(** An operation leaves the index of a task marked [-2] alone. *)
Definition sentinel_untouched (op : TaskStore → TaskStore) : Prop :=
  ∀ st l, l ∈ tasks st → index_at st l = Some (-2) → index_at (op st) l = Some (-2).

(** A store built from task values, as [TaskStore.__init__] builds it. *)
Definition store_of (ts : list Task) : TaskStore := foldl alloc (mkStore ∅ []) ts.

(** ** Sample stores *)

(** The list of the specification's scenarios: A and C finished. *)
Definition task_A : Task := mkTask (Some "A"%string) 1 2 0.
Definition task_B : Task := mkTask (Some "B"%string) 3 0 0.
Definition task_C : Task := mkTask (Some "C"%string) 2 2 0.
Definition abc_store : TaskStore := resetTasks (store_of [task_A; task_B; task_C]).

(** A finished task that still carries the deletion mark while it is in
    the list. *)
Definition pending_task : Task := mkTask (Some "A"%string) 1 2 (-2).
Definition pending_store : TaskStore := mkStore {[ 1%positive := pending_task ]} [1%positive].

(** Two tasks that agree in every attribute but are different objects, in
    storage order 1, 2. *)
Definition twin_store : TaskStore := resetTasks (store_of [task_B; task_B]).

(** ** Vocabulary of the display order *)

(** The order [sortByPriority] aims at: ascending priority, descending when
    the sort button is checked. *)
Definition by_priority (descending : bool) (h : gmap positive Task) : relation positive :=
  λ a b, if descending then prio h b ≤ prio h a else prio h a ≤ prio h b.

(** Ranked tasks of equal priority are ranked in their storage order. *)
Definition ties_in_storage_order (st st' : TaskStore) : Prop :=
  ∀ (i j : nat) a b,
    (i < j)%nat → tasks st !! i = Some a → tasks st !! j = Some b →
    shown (heap st) a → shown (heap st) b → prio (heap st) a = prio (heap st) b →
    ∃ ia ib, index_at st' a = Some ia ∧ index_at st' b = Some ib ∧ ia < ib.

(** Ranked tasks of equal priority are ranked against their storage order. *)
Definition ties_in_reverse_storage_order (st st' : TaskStore) : Prop :=
  ∀ (i j : nat) a b,
    (i < j)%nat → tasks st !! i = Some a → tasks st !! j = Some b →
    shown (heap st) a → shown (heap st) b → prio (heap st) a = prio (heap st) b →
    ∃ ia ib, index_at st' a = Some ia ∧ index_at st' b = Some ib ∧ ib < ia.

(** What [filterFinished] hides: [hideFinished and task.status == 2]. *)
Definition hidden (hideFinished : bool) (h : gmap positive Task) (l : positive) : bool :=
  match h !! l with
  | Some t => hideFinished && (status t =? 2)
  | None => false
  end.

(** ** Vocabulary of loading *)

(** The integer in field [k] of a record, when the field is there and
    [int] accepts its text. *)
Definition numeral (k : string) (te : Element) : option Z := findtext k te ≫= py_int.

(** Both numeric fields of a record are integers. *)
Definition numeric_record (te : Element) : Prop :=
  is_Some (numeral "priority" te) ∧ is_Some (numeral "status" te).

(** The task a numeric record stands for. *)
Definition record_task (te : Element) : Task :=
  Task_init (findtext "name" te)
            (default 0 (numeral "priority" te)) (default 0 (numeral "status" te)).

(** The attributes of a task as a fresh [Task(...)] holds them. *)
Definition reloaded (t : Task) : Task := Task_init (name t) (priority t) (status t).

(** A file with a good record followed by one whose priority is no number. *)
Definition good_record : Element :=
  mkElement "Task" None [leaf "name" "x"; leaf "priority" "2"; leaf "status" "1"].
Definition bad_record : Element :=
  mkElement "Task" None [leaf "name" "y"; leaf "priority" "high"; leaf "status" "0"].
Definition sample_fs : gmap string file :=
  {[ "/tmp/good.xml"%string := Xml (mkElement "ToDoPanel" None [good_record]);
     "/tmp/bad.xml"%string := Xml (mkElement "ToDoPanel" None [good_record; bad_record]);
     "/tmp/junk.xml"%string := NotXml ]}.

(** ** Ranks as counts *)

(** The tasks behind a list of references. *)
Definition values (h : gmap positive Task) (ls : list positive) : list Task :=
  omap (λ l, h !! l) ls.

(** [not (hideFinished and task.status == 2)]: the filter lets the task be. *)
Definition stays (hideFinished : bool) (t : Task) : bool :=
  negb (hideFinished && (status t =? 2)).

(** How many tasks of [ts] stay visible and have a priority accepted by [P]. *)
Definition count_visible (hideFinished : bool) (P : Z → bool) (ts : list Task) : nat :=
  length (filter (λ t, stays hideFinished t && P (priority t)) ts).

(** The index a pass gives to a task [t] stored between [before] and
    [after]: [-1] when hidden; otherwise the number of visible tasks shown
    above it.  Ascending, those are the earlier tasks of at most its
    priority and the later ones of less; descending, the earlier tasks of
    more than its priority and the later ones of at least it. *)
Definition rank_of (hideFinished sortState : bool)
    (before : list Task) (t : Task) (after : list Task) : Z :=
  if stays hideFinished t then
    Z.of_nat
      (if sortState
       then count_visible hideFinished (λ p, priority t <? p) before
            + count_visible hideFinished (λ p, priority t <=? p) after
       else count_visible hideFinished (λ p, p <=? priority t) before
            + count_visible hideFinished (λ p, p <? priority t) after)
  else -1.

(** ** Task.__str__ and the clipboard *)

(** Python's [xs[i]] on a list: a negative [i] counts from the end; [None]
    stands for [IndexError]. *)
Definition py_getitem {A} (xs : list A) (i : Z) : option A :=
  if 0 <=? i then xs !! Z.to_nat i
  else if - Z.of_nat (length xs) <=? i then xs !! Z.to_nat (Z.of_nat (length xs) + i)
  else None.

(** The characters ['\n'] and ['\t']. *)
Definition nl : string := String "010"%char EmptyString.
Definition tab : string := String "009"%char EmptyString.

(** [['waiting', 'in progress', 'finished']] *)
Definition status_names : list string := ["waiting"; "in progress"; "finished"]%string.

(** The text [Task.__str__] builds around a status label. *)
Definition Task_line (t : Task) (label : string) : string :=
  ("--------------------" +:+ nl +:+ "p" +:+ py_str (priority t) +:+ ":" +:+ tab +:+ tab
   +:+ default "None" (name t) +:+ tab +:+ tab +:+ " (" +:+ label +:+ ")")%string.

(** [Task.__str__]: the tuple of the format is built first, so a status
    outside the list raises before anything is formatted. *)
Definition Task_str (t : Task) : option string :=
  label ← py_getitem status_names (status t); Some (Task_line t label).

(** [sep.join(xs)] *)
Fixpoint py_join (sep : string) (xs : list string) : string :=
  match xs with
  | [] => EmptyString
  | [x] => x
  | x :: rest => (x +:+ sep +:+ py_join sep rest)%string
  end.

(** [MainWindow.copyToClipboard]: the text handed to the clipboard, [None]
    when a [str(t)] raises.  [sortState] is [self.sortButton.isChecked()]. *)
Definition copyToClipboard (sortState : bool) (st : TaskStore) : option string :=
  let sortedTasks := display_order sortState (heap st) (tasks st) in
  texts ← mapM (λ l, heap st !! l ≫= Task_str) sortedTasks;
  Some (py_join nl texts).

(** ** Settings *)

(** [MainWindow.loadSettings]: the states the two buttons end in, [None]
    when the call raises.  [eval_] is what [setChecked(eval(text))] makes of
    a text: the boolean, or [None] when no boolean comes out of it. *)
Definition loadSettings (eval_ : string → option bool) (fs : gmap string file)
    (settingsFile : string) (buttons : bool * bool) : option (bool * bool) :=
  match fs !! settingsFile with
  | Some f =>
      match ET_parse f with
      | Return root =>
          settings ← find "Settings" root;
          hideFinished ← findtext "hideFinished" settings ≫= eval_;
          sortState ← findtext "sortState" settings ≫= eval_;
          Some (hideFinished, sortState)
      | Raise _ => None
      end
  | None => Some buttons
  end.

(** [eval] on the two texts [str] makes of a bool. *)
Definition eval_literal (s : string) : option bool :=
  if decide (s = "True"%string) then Some true
  else if decide (s = "False"%string) then Some false
  else None.

(** The path [TaskStore()] reads when it is given none. *)
Definition default_tasksFile : string := "/tmp/settings.xml".

(** [MainWindow.__init__] of ToDoList.py, and [Controller.__init__] with
    [Controller.start] of ToDoPanel.py: [TaskStore()] loads the default file,
    the buttons start unchecked, [loadSettings] reads [settingsFile], and
    [applyFilterAndSorting] runs.  [None] when an exception escapes. *)
Definition session_start (eval_ : string → option bool) (fs : gmap string file)
    (settingsFile : string) : option (TaskStore * (bool * bool)) :=
  match TaskStore_init fs default_tasksFile with
  | Return st =>
      buttons ← loadSettings eval_ fs settingsFile (false, false);
      Some (applyFilterAndSorting buttons.1 buttons.2 st, buttons)
  | Raise _ => None
  end.

(** The indices a pass gives to a list of tasks in storage order. *)
Definition ranks (hideFinished sortState : bool) (ts : list Task) : list Z :=
  imap (λ n t, rank_of hideFinished sortState (take n ts) t (drop (S n) ts)) ts.

(** ** The main window *)

(** The setters of [Task], on the object at [l]. *)
Definition setName (l : positive) (n : string) (h : gmap positive Task)
  : gmap positive Task :=
  alter (λ t, mkTask (Some n) (priority t) (status t) (index t)) l h.

Definition setPriority (l : positive) (p : Z) (h : gmap positive Task)
  : gmap positive Task :=
  alter (λ t, mkTask (name t) p (status t) (index t)) l h.

Definition setStatus (l : positive) (s : Z) (h : gmap positive Task)
  : gmap positive Task :=
  alter (λ t, mkTask (name t) (priority t) s (index t)) l h.

(** What the handlers below read and write of a [MainWindow]: the store,
    the [TaskWidget] objects made so far with the task each was made for
    ([TaskWidget.task] is assigned once, in [__init__]), the list
    [self.taskWidgets], the two checkable buttons and
    [self.deletedTaskWidgets].  Geometry and animations are Qt's. *)
Record MainWindow := mkWindow {
  taskStore : TaskStore;
  widget_task : gmap positive positive;
  taskWidgets : list positive;
  hideButton : bool;
  sortButton : bool;
  deletedTaskWidgets : list positive
}.

(** [tw.task.index == -2] *)
Definition marked (st : TaskStore) (wt : gmap positive positive) (tw : positive) : bool :=
  match wt !! tw ≫= (λ t, heap st !! t) with
  | Some t => index t =? -2
  | None => false
  end.

(** [MainWindow.update]: [self.deletedTaskWidgets] is recomputed; the rest
    starts animations. *)
Definition update (m : MainWindow) : MainWindow :=
  mkWindow (taskStore m) (widget_task m) (taskWidgets m) (hideButton m) (sortButton m)
    (filter (λ tw, marked (taskStore m) (widget_task m) tw) (taskWidgets m)).

(** [MainWindow.addTaskWidget]: [TaskWidget(task, ...)] is a new object. *)
Definition addTaskWidget (task : positive) (m : MainWindow) : MainWindow * positive :=
  let newTaskWidget := fresh (dom (widget_task m)) in
  (mkWindow (taskStore m) (<[newTaskWidget := task]> (widget_task m))
     (taskWidgets m ++ [newTaskWidget]) (hideButton m) (sortButton m)
     (deletedTaskWidgets m),
   newTaskWidget).

(** [MainWindow.deleteTask]; [taskWidgetToDelete] is [self.sender().parent()]. *)
Definition MainWindow_deleteTask (taskWidgetToDelete : positive) (m : MainWindow)
  : MainWindow :=
  mkWindow (taskStore m) (widget_task m)
    (filter (λ taskWidget, taskWidgetToDelete ≠ taskWidget) (taskWidgets m))
    (hideButton m) (sortButton m) (deletedTaskWidgets m).

(** Replacing the store or a button state. *)
Definition with_store (st : TaskStore) (m : MainWindow) : MainWindow :=
  mkWindow st (widget_task m) (taskWidgets m) (hideButton m) (sortButton m)
    (deletedTaskWidgets m).

Definition with_buttons (hide sort : bool) (m : MainWindow) : MainWindow :=
  mkWindow (taskStore m) (widget_task m) (taskWidgets m) hide sort
    (deletedTaskWidgets m).

(** [MainWindow.applyFilterAndSorting] with its [self.update()]. *)
Definition MainWindow_applyFilterAndSorting (m : MainWindow) : MainWindow :=
  update (with_store
            (applyFilterAndSorting (hideButton m) (sortButton m) (taskStore m)) m).

(** [MainWindow.onAddTask] *)
Definition onAddTask (m : MainWindow) : MainWindow :=
  let '(st, newTask) := addTask (taskStore m) in
  let '(m', newTaskWidget) := addTaskWidget newTask (with_store st m) in
  MainWindow_applyFilterAndSorting m'.

(** [MainWindow.setupUI]: one [TaskWidget] per task of the store, in
    storage order, then [self.update()]; the buttons start unchecked. *)
Definition setupUI (st : TaskStore) : MainWindow :=
  update (foldl (λ m t, (addTaskWidget t m).1)
            (mkWindow st ∅ [] false false []) (tasks st)).

(** The window once [controller()] has run: [loadSettings] left the
    buttons at [hide] and [sort], then [applyFilterAndSorting]. *)
Definition window_start (st : TaskStore) (hide sort : bool) : MainWindow :=
  MainWindow_applyFilterAndSorting (with_buttons hide sort (setupUI st)).

(** What the user can trigger, each with the slots connected to it in
    [connectSignalsWithSlots] and [connectTaskWidgetSignals], in connection
    order.  [tw] is the [TaskWidget] the signal comes from. *)
Inductive event :=
  | AddTaskClicked
  | SortClicked
  | HideClicked
  | TextChanged (tw : positive) (text : string)
  | ValueChanged (tw : positive) (value : Z)
  | AllowSorting (tw : positive)
  | CurrentIndexChanged (tw : positive) (i : Z)
  | DeleteClicked (tw : positive)
  | Resized.

(** A slot of the task of [tw]. *)
Definition on_task (f : positive → gmap positive Task → gmap positive Task)
    (tw : positive) (m : MainWindow) : MainWindow :=
  match widget_task m !! tw with
  | Some t => with_store (mkStore (f t (heap (taskStore m))) (tasks (taskStore m))) m
  | None => m
  end.

Definition handle (e : event) (m : MainWindow) : MainWindow :=
  match e with
  | AddTaskClicked => onAddTask m
  | SortClicked =>
      MainWindow_applyFilterAndSorting
        (with_buttons (hideButton m) (negb (sortButton m)) m)
  | HideClicked =>
      MainWindow_applyFilterAndSorting
        (with_buttons (negb (hideButton m)) (sortButton m) m)
  | TextChanged tw text => on_task (λ t, setName t text) tw m
  | ValueChanged tw value => on_task (λ t, setPriority t value) tw m
  | AllowSorting tw => MainWindow_applyFilterAndSorting m
  | CurrentIndexChanged tw i =>
      MainWindow_applyFilterAndSorting (on_task (λ t, setStatus t i) tw m)
  | DeleteClicked tw =>
      match widget_task m !! tw with
      | Some t =>
          MainWindow_deleteTask tw (update (with_store (deleteTask t (taskStore m)) m))
      | None => m
      end
  | Resized => update m
  end.

(** The window after a sequence of events. *)
Definition run (es : list event) (m : MainWindow) : MainWindow :=
  foldl (λ m e, handle e m) m es.

(** A task in the store has an index of at least [-1]; an object that is
    not in the store has the index [-2]. *)
Definition tidy (st : TaskStore) : Prop :=
  ∀ l t, heap st !! l = Some t →
         if decide (l ∈ tasks st) then -1 ≤ index t else index t = -2.

(** The listed widgets are distinct and their tasks are, up to order, the
    tasks of the store; no two widgets were made for the same task, and
    every widget was made for a live object. *)
Definition widgets_match (wt : gmap positive positive) (tws : list positive)
    (st : TaskStore) : Prop :=
  NoDup tws ∧
  omap (λ tw, wt !! tw) tws ≡ₚ tasks st ∧
  length tws = length (tasks st) ∧
  (∀ tw1 tw2 t, wt !! tw1 = Some t → wt !! tw2 = Some t → tw1 = tw2) ∧
  (∀ tw t, wt !! tw = Some t → is_Some (heap st !! t)).

(** What holds of the window between two events. *)
Definition consistent (m : MainWindow) : Prop :=
  wf (taskStore m) ∧ tidy (taskStore m) ∧
  widgets_match (widget_task m) (taskWidgets m) (taskStore m).

(** ** TaskWidget.getNewPosition *)

(** The expression [getNewPosition] binds [y] to.  The products and the
    heights are Python's and Qt's; which of them is evaluated depends on
    the index of the task alone. *)
Inductive ycoord :=
  | Row (i : Z)       (* index * TASKWIDGETHEIGHT * TASKWIDGETSPACING *)
  | Above (i : Z)     (* index * self.height() *)
  | ParentHeight.     (* self.parentWidget().height() *)

(** [None]: no branch binds [y], and [QtCore.QPoint(x, y)] raises
    [UnboundLocalError]. *)
Definition getNewPosition (t : Task) : option ycoord :=
  if 0 <=? index t then Some (Row (index t))
  else if index t =? -1 then Some (Above (index t))
  else if index t =? -2 then Some ParentHeight
  else None.

(** [taskWidget.getNewPosition()] in the loop of [MainWindow.update]. *)
Definition end_value (m : MainWindow) (taskWidget : positive) : option ycoord :=
  t ← widget_task m !! taskWidget ;
  x ← heap (taskStore m) !! t ;
  getNewPosition x.

(** * Theorems *)

Lemma wf_alt st :
  wf st ↔ NoDup (tasks st) ∧ ∀ l, l ∈ tasks st → is_Some (heap st !! l).
Proof. unfold wf. by rewrite Forall_forall. Qed.

(** Closed decidable facts about the sample stores, by evaluation. *)
Ltac by_evaluation := apply (bool_decide_unpack _); vm_compute; exact I.

(** ** The heap under index assignments *)

Lemma lookup_assign (h : gmap positive Task) l i l' :
  assign l i h !! l' = if decide (l = l') then set_index i <$> h !! l' else h !! l'.
Proof.
  unfold assign. rewrite lookup_alter. by case_decide; subst.
Qed.

Lemma fields_set_index i t : fields (set_index i t) = fields t.
Proof. done. Qed.

Lemma fields_assign (h : gmap positive Task) l i l' :
  fields <$> assign l i h !! l' = fields <$> h !! l'.
Proof.
  rewrite lookup_assign. case_decide; [|done].
  by destruct (h !! l').
Qed.

Lemma enumerate_assign_notin ls : ∀ i (h : gmap positive Task) l,
  l ∉ ls → enumerate_assign i ls h !! l = h !! l.
Proof.
  induction ls as [|a ls IH]; intros i h l Hl; [done|].
  apply not_elem_of_cons in Hl as [Hne Hl]. simpl.
  rewrite IH by done. rewrite lookup_assign. by case_decide; subst.
Qed.

Lemma enumerate_assign_fields ls : ∀ i (h : gmap positive Task) l,
  fields <$> enumerate_assign i ls h !! l = fields <$> h !! l.
Proof.
  induction ls as [|a ls IH]; intros i h l; [done|].
  simpl. by rewrite IH, fields_assign.
Qed.

(** On a list without repetition the [n]-th object gets rank [i + n]. *)
Lemma enumerate_assign_lookup ls : ∀ i (h : gmap positive Task) (n : nat) l,
  NoDup ls → ls !! n = Some l →
  enumerate_assign i ls h !! l = set_index (i + Z.of_nat n) <$> h !! l.
Proof.
  induction ls as [|a ls IH]; intros i h n l Hnd Hn; [done|].
  apply NoDup_cons in Hnd as [Ha Hnd]. destruct n as [|n]; simpl in *.
  - injection Hn as ->. rewrite enumerate_assign_notin by done.
    rewrite lookup_assign, decide_True by done. by rewrite Z.add_0_r.
  - rewrite (IH _ _ n l) by done.
    assert (a ≠ l) by (intros ->; apply Ha; by eapply list_elem_of_lookup_2).
    rewrite lookup_assign, decide_False by done.
    by replace (i + 1 + Z.of_nat n) with (i + Z.pos (Pos.of_succ_nat n)) by lia.
Qed.

(** Whatever the list, an object in it ends with a rank of the range. *)
Lemma enumerate_assign_elem ls : ∀ i (h : gmap positive Task) l,
  l ∈ ls →
  ∃ n : nat, (n < length ls)%nat ∧
    enumerate_assign i ls h !! l = set_index (i + Z.of_nat n) <$> h !! l.
Proof.
  induction ls as [|a ls IH]; intros i h l Hl; [by apply elem_of_nil in Hl|].
  simpl. destruct (decide (l ∈ ls)) as [Hin|Hin].
  - destruct (IH (i + 1) (assign a i h) l Hin) as (n & Hn & ->).
    exists (S n). split; [lia|]. rewrite lookup_assign.
    replace (i + 1 + Z.of_nat n) with (i + Z.of_nat (S n)) by lia.
    case_decide; [|done]. by destruct (h !! l).
  - apply elem_of_cons in Hl as [->|]; [|done].
    exists 0%nat. split; [lia|]. rewrite enumerate_assign_notin by done.
    rewrite lookup_assign, decide_True by done. by rewrite Z.add_0_r.
Qed.

(** An index that is negative after the loop was there before it. *)
Lemma enumerate_assign_negative ls i (h : gmap positive Task) l z :
  0 ≤ i → index <$> enumerate_assign i ls h !! l = Some z → z < 0 →
  enumerate_assign i ls h !! l = h !! l.
Proof.
  intros Hi Hz Hneg. destruct (decide (l ∈ ls)) as [Hin|Hin].
  - destruct (enumerate_assign_elem ls i h l Hin) as (n & _ & Hn).
    rewrite Hn in Hz. destruct (h !! l); simplify_eq/=. lia.
  - by apply enumerate_assign_notin.
Qed.

Lemma foldl_hide_step_false ls : ∀ h : gmap positive Task,
  foldl (hide_step false) h ls = h.
Proof.
  induction ls as [|a ls IH]; intros h; [done|].
  simpl. rewrite IH. unfold hide_step. by destruct (h !! a).
Qed.

Lemma foldl_hide_step_true ls : ∀ (h : gmap positive Task) l,
  foldl (hide_step true) h ls !! l =
  (λ t, if decide (l ∈ ls ∧ status t = 2) then set_index (-1) t else t) <$> h !! l.
Proof.
  induction ls as [|a ls IH]; intros h l.
  - cbn [foldl]. destruct (h !! l) as [t|]; [|done]. cbn [fmap option_fmap option_map].
    rewrite decide_False; [done|]. intros [H _]. by apply elem_of_nil in H.
  - cbn [foldl]. rewrite IH. unfold hide_step.
    destruct (h !! a) as [ta|] eqn:Ha; cbn [andb].
    + destruct (Z.eqb_spec (status ta) 2) as [Hs|Hs].
      * rewrite lookup_assign. case_decide as Hal.
        -- subst l. rewrite Ha. cbn [fmap option_fmap option_map]. f_equal.
           rewrite (decide_True (P := a ∈ a :: ls ∧ _)) by (split; [left|done]).
           by case_decide.
        -- destruct (h !! l) as [t|]; [|done]. cbn [fmap option_fmap option_map]. f_equal.
           apply decide_ext. rewrite elem_of_cons. intuition congruence.
      * destruct (h !! l) as [t|] eqn:Hl; [|done]. cbn [fmap option_fmap option_map]. f_equal.
        apply decide_ext. rewrite elem_of_cons. intuition congruence.
    + destruct (h !! l) as [t|] eqn:Hl; [|done]. cbn [fmap option_fmap option_map]. f_equal.
      apply decide_ext. rewrite elem_of_cons. intuition congruence.
Qed.

Lemma sortByPriority_hidden active st l :
  shown (heap st) l = false → heap (sortByPriority active st) !! l = heap st !! l.
Proof.
  intros Hl. unfold sortByPriority. cbn [heap].
  apply enumerate_assign_notin. rewrite list_elem_of_filter, Hl. by intros [[] _].
Qed.

(** ** Well-formedness is kept *)

Lemma enumerate_assign_is_Some ls i (h : gmap positive Task) l :
  is_Some (enumerate_assign i ls h !! l) ↔ is_Some (h !! l).
Proof.
  rewrite <- !(fmap_is_Some fields). by rewrite enumerate_assign_fields.
Qed.

Lemma same_fields_wf st st' : same_fields st st' → wf st → wf st'.
Proof.
  intros [Ht Hf] [Hnd Hlive]%wf_alt. apply wf_alt. split; rewrite Ht; [done|].
  intros l Hl. apply (fmap_is_Some fields). rewrite Hf.
  apply fmap_is_Some. auto.
Qed.

Lemma resetTasks_same_fields st : same_fields st (resetTasks st).
Proof. split; [done|]. intros l. apply enumerate_assign_fields. Qed.

Lemma filterFinished_same_fields hide st : same_fields st (filterFinished hide st).
Proof.
  split; [done|]. intros l. unfold filterFinished. cbn [heap].
  destruct hide; [|by rewrite foldl_hide_step_false].
  rewrite foldl_hide_step_true. destruct (heap st !! l) as [t|]; [|done].
  cbn [fmap option_fmap option_map]. by case_decide.
Qed.

Lemma sortByPriority_same_fields active st : same_fields st (sortByPriority active st).
Proof. split; [done|]. intros l. apply enumerate_assign_fields. Qed.

Lemma addTask_wf st : wf st → wf (addTask st).1.
Proof.
  intros [Hnd Hlive]%wf_alt. pose proof (is_fresh (dom (heap st))) as Hfresh.
  apply wf_alt. split; cbn [addTask fst tasks heap].
  - apply NoDup_cons. split; [|done].
    intros Hin. apply Hfresh, elem_of_dom. auto.
  - intros l [->|Hl]%elem_of_cons.
    + rewrite lookup_insert_eq. eauto.
    + rewrite lookup_insert_is_Some. destruct (decide (fresh (dom (heap st)) = l)); auto.
Qed.

Lemma store_of_wf ts : wf (store_of ts).
Proof.
  unfold store_of. assert (wf (mkStore ∅ [])) as Hwf.
  { apply wf_alt. split; [constructor|]. by intros l Hl%elem_of_nil. }
  revert Hwf. generalize (mkStore ∅ []).
  induction ts as [|t ts IH]; intros st Hwf; [done|].
  cbn [foldl]. apply IH. apply wf_alt in Hwf as [Hnd Hlive].
  pose proof (is_fresh (dom (heap st))) as Hfresh.
  apply wf_alt. split; cbn [alloc tasks heap].
  - apply NoDup_app. split_and!; [done| |apply NoDup_singleton].
    intros l Hl ->%list_elem_of_singleton. apply Hfresh, elem_of_dom. auto.
  - intros l [Hl| ->%list_elem_of_singleton]%elem_of_app.
    + rewrite lookup_insert_is_Some. destruct (decide (fresh (dom (heap st)) = l)); auto.
    + rewrite lookup_insert_eq. eauto.
Qed.

Lemma TaskStore_init_wf fs tasksFile st :
  TaskStore_init fs tasksFile = Return st → wf st.
Proof.
  unfold TaskStore_init. destruct (loadTasks fs tasksFile) as [ts|e]; [|done].
  intros [= <-]. eapply same_fields_wf; [apply resetTasks_same_fields|].
  apply store_of_wf.
Qed.

(** ** filterFinished *)


(** ** Frame of a recompute pass *)

(** C10.  Each of [resetTasks], [filterFinished] and [sortByPriority] leaves
    [self.tasks] as it is (same members, same order) and leaves the name,
    priority and status of every object unchanged: only [index] attributes
    are written. *)
Theorem recompute_same_fields (st : TaskStore) (hideFinished active : bool) :
  same_fields st (resetTasks st) ∧
  same_fields st (filterFinished hideFinished st) ∧
  same_fields st (sortByPriority active st).
Proof.
  split_and!.
  - apply resetTasks_same_fields.
  - apply filterFinished_same_fields.
  - apply sortByPriority_same_fields.
Qed.

(** ** The deletion mark *)




(** ** addTask and deleteTask *)

(** C6.  [addTask] creates an object that was not there before, with the
    default attributes (name "new task", priority 1, status 0), puts it at
    position 0 of the list in front of the previous tasks, whose order and
    objects are untouched, and returns it. *)
Theorem addTask_spec (st : TaskStore) :
  heap st !! (addTask st).2 = None ∧
  heap (addTask st).1 !! (addTask st).2 = Some Task_default ∧
  fields Task_default = (Some "new task"%string, 1, 0) ∧
  tasks (addTask st).1 = (addTask st).2 :: tasks st ∧
  tasks (addTask st).1 !! 0%nat = Some (addTask st).2 ∧
  ∀ l, heap (addTask st).1 !! l =
       if decide (l = (addTask st).2) then Some Task_default else heap st !! l.
Proof.
  cbn [addTask fst snd heap tasks]. split_and!; try done.
  - apply not_elem_of_dom, is_fresh.
  - apply lookup_insert_eq.
  - intros l. rewrite lookup_insert. by repeat case_decide; subst.
Qed.

Lemma filter_ne_split (t : positive) l1 l2 :
  t ∉ l1 → t ∉ l2 → filter (λ task, t ≠ task) (l1 ++ t :: l2) = l1 ++ l2.
Proof.
  intros H1 H2. rewrite filter_app, filter_cons_False by (by intros ?).
  assert (∀ l : list positive, t ∉ l → filter (λ task, t ≠ task) l = l) as Hid.
  { induction l as [|a l IH]; [done|]. intros [Ha Hl]%not_elem_of_cons.
    rewrite filter_cons_True by done. by rewrite IH. }
  by rewrite !Hid.
Qed.

(** C7.  In a store whose list holds each object once, [deleteTask] takes
    exactly the object [t] out of the list (an object that is not [t] stays,
    whatever its attributes), keeps the others in their order, and leaves
    them numbered [0..n-1] in storage order, as [resetTasks] does. *)
Theorem deleteTask_spec (st : TaskStore) (t : positive) :
  wf st → t ∈ tasks st →
  (∃ l1 l2, tasks st = l1 ++ t :: l2 ∧ tasks (deleteTask t st) = l1 ++ l2) ∧
  (∀ l, l ∈ tasks (deleteTask t st) ↔ l ∈ tasks st ∧ l ≠ t) ∧
  S (length (tasks (deleteTask t st))) = length (tasks st) ∧
  (∀ (n : nat) l, tasks (deleteTask t st) !! n = Some l →
     index_at (deleteTask t st) l = Some (Z.of_nat n)) ∧
  (∀ l, fields <$> heap (deleteTask t st) !! l = fields <$> heap st !! l) ∧
  wf (deleteTask t st).
Proof.
  intros [Hnd Hlive]%wf_alt Hin.
  destruct (list_elem_of_split _ _ Hin) as (l1 & l2 & Hsplit).
  assert ((t ∉ l1) ∧ (t ∉ l2)) as [H1 H2].
  { rewrite Hsplit in Hnd. apply NoDup_app in Hnd as (_ & Hd & Hnd2).
    apply NoDup_cons in Hnd2 as [? _]. split; [|done].
    intros Ht. apply (Hd t Ht). by left. }
  assert (tasks (deleteTask t st) = l1 ++ l2) as Htasks.
  { unfold deleteTask, resetTasks. cbn [tasks]. rewrite Hsplit. by apply filter_ne_split. }
  assert (NoDup (l1 ++ l2)) as Hnd'.
  { rewrite Hsplit in Hnd. eapply sublist_NoDup; [exact Hnd|].
    apply sublist_app; [done|]. by apply sublist_cons. }
  assert (∀ l, l ∈ l1 ++ l2 ↔ l ∈ tasks st ∧ l ≠ t) as Hmem.
  { intros l. rewrite Hsplit, !elem_of_app, elem_of_cons. split.
    - intros [?|?]; (split; [tauto|]); intros ->; tauto.
    - intros [[?|[->|?]] ?]; tauto. }
  assert (∀ l, fields <$> heap (deleteTask t st) !! l = fields <$> heap st !! l) as Hf.
  { intros l. unfold deleteTask, resetTasks. cbn [heap tasks].
    by rewrite enumerate_assign_fields, fields_assign. }
  split_and!.
  - eauto.
  - intros l. by rewrite Htasks.
  - rewrite Htasks, Hsplit, !length_app. cbn. lia.
  - intros n l Hn. unfold index_at. rewrite Htasks in Hn.
    assert (l ∈ tasks st ∧ l ≠ t) as [Hl Hne]
      by (apply Hmem; by eapply list_elem_of_lookup_2).
    unfold deleteTask, resetTasks in *. cbn [heap tasks] in *. rewrite Htasks.
    rewrite (enumerate_assign_lookup _ _ _ n l) by done.
    rewrite lookup_assign, decide_False by done.
    destruct (Hlive l Hl) as [x ->]. cbn. by rewrite Z.add_0_l.
  - done.
  - apply wf_alt. split; rewrite Htasks; [done|]. intros l [Hl _]%Hmem.
    apply (fmap_is_Some fields). rewrite Hf. apply fmap_is_Some. auto.
Qed.

(** The statement of C7 on the sample list [A; B; C] with B removed. *)
Lemma deleteTask_spec_witness :
  (∃ l1 l2, tasks abc_store = l1 ++ 2%positive :: l2 ∧
            tasks (deleteTask 2 abc_store) = l1 ++ l2) ∧
  S (length (tasks (deleteTask 2 abc_store))) = length (tasks abc_store) ∧
  wf (deleteTask 2 abc_store).
Proof.
  destruct (deleteTask_spec abc_store 2) as (H1 & _ & H2 & _ & _ & H3).
  - by_evaluation.
  - by_evaluation.
  - by split_and!.
Defined.




(** ** The stable sort *)

Section SortedFacts.
Context {A : Type} (key : A → Z).

Lemma insert_by_Permutation x l : insert_by key x l ≡ₚ x :: l.
Proof.
  induction l as [|y l IH]; [done|].
  cbn [insert_by]. destruct (key x <=? key y); [done|].
  by rewrite IH, Permutation_swap.
Qed.

Lemma sorted_by_Permutation l : sorted_by key l ≡ₚ l.
Proof.
  induction l as [|x l IH]; [done|].
  cbn [sorted_by foldr]. rewrite insert_by_Permutation. by f_equiv.
Qed.

Lemma insert_by_sorted x l :
  StronglySorted (λ a b, key a ≤ key b) l →
  StronglySorted (λ a b, key a ≤ key b) (insert_by key x l).
Proof.
  induction l as [|y l IH]; intros Hl.
  - repeat constructor.
  - apply StronglySorted_cons in Hl as [Hy Hl]. cbn [insert_by].
    destruct (Z.leb_spec (key x) (key y)) as [Hxy|Hxy].
    + apply StronglySorted_cons. split.
      * constructor; [done|]. eapply Forall_impl; [exact Hy|].
        intros z Hz. cbn in *. lia.
      * by apply StronglySorted_cons.
    + apply StronglySorted_cons. split; [|by apply IH].
      rewrite insert_by_Permutation. constructor; [lia|done].
Qed.

Lemma sorted_by_sorted l : StronglySorted (λ a b, key a ≤ key b) (sorted_by key l).
Proof.
  induction l as [|x l IH]; [constructor|]. by apply insert_by_sorted.
Qed.

(** Stability: the tasks of any one key come out in the order they went in. *)
Lemma insert_by_stable p x l :
  filter (λ a, key a = p) (insert_by key x l) = filter (λ a, key a = p) (x :: l).
Proof.
  induction l as [|y l IH]; [done|].
  cbn [insert_by]. destruct (Z.leb_spec (key x) (key y)) as [Hxy|Hxy]; [done|].
  rewrite (filter_cons _ y), IH, !(filter_cons _ x), (filter_cons _ y).
  repeat case_decide; try done. lia.
Qed.

Lemma sorted_by_stable p l :
  filter (λ a, key a = p) (sorted_by key l) = filter (λ a, key a = p) l.
Proof.
  induction l as [|x l IH]; [done|].
  cbn [sorted_by foldr]. rewrite insert_by_stable, !(filter_cons _ x).
  fold (sorted_by key l). by rewrite IH.
Qed.

(** The list [sorted_by] computes is the only one that is ordered by key
    and keeps every class of equal keys as it was, so it is what any
    stable sort returns. *)
Lemma stable_sorted_unique (l1 : list A) : ∀ l2,
  StronglySorted (λ a b, key a ≤ key b) l1 →
  StronglySorted (λ a b, key a ≤ key b) l2 →
  (∀ p, filter (λ a, key a = p) l1 = filter (λ a, key a = p) l2) →
  l1 = l2.
Proof.
  induction l1 as [|x l1 IH]; intros l2 H1 H2 Hf.
  - destruct l2 as [|y l2]; [done|].
    specialize (Hf (key y)). by rewrite filter_cons_True in Hf.
  - destruct l2 as [|y l2].
    { specialize (Hf (key x)). by rewrite filter_cons_True in Hf. }
    apply StronglySorted_cons in H1 as [Hx H1].
    apply StronglySorted_cons in H2 as [Hy H2].
    rewrite Forall_forall in Hx, Hy.
    assert (key x = key y) as Hk.
    { destruct (decide (key x = key y)) as [|Hne]; [done|].
      pose proof (Hf (key x)) as Fx. pose proof (Hf (key y)) as Fy.
      rewrite filter_cons_True, (filter_cons_False _ y) in Fx by congruence.
      rewrite (filter_cons_False _ x), filter_cons_True in Fy by congruence.
      assert (x ∈ l2) as Hx2.
      { assert (x ∈ filter (λ a, key a = key x) l2) as Hin by (rewrite <- Fx; by left).
        by apply list_elem_of_filter in Hin as [_ ?]. }
      assert (y ∈ l1) as Hy1.
      { assert (y ∈ filter (λ a, key a = key y) l1) as Hin by (rewrite Fy; by left).
        by apply list_elem_of_filter in Hin as [_ ?]. }
      specialize (Hx y Hy1). specialize (Hy x Hx2). lia. }
    pose proof (Hf (key x)) as Fx.
    rewrite !filter_cons_True in Fx by done. injection Fx as -> Fx.
    f_equal. apply IH; [done..|]. intros p.
    destruct (decide (key y = p)) as [<-|Hne]; [done|].
    specialize (Hf p). by rewrite !filter_cons_False in Hf.
Qed.

Lemma sorted_by_unique l l' :
  StronglySorted (λ a b, key a ≤ key b) l' →
  (∀ p, filter (λ a, key a = p) l' = filter (λ a, key a = p) l) →
  l' = sorted_by key l.
Proof.
  intros Hs Hf. apply stable_sorted_unique; [done|apply sorted_by_sorted|].
  intros p. by rewrite Hf, sorted_by_stable.
Qed.

Lemma StronglySorted_reverse (R : relation A) l :
  StronglySorted R l → StronglySorted (flip R) (reverse l).
Proof.
  induction 1 as [|x l Hl IH Hx]; [constructor|].
  rewrite reverse_cons. apply StronglySorted_app. split_and!.
  - intros a b Ha ->%list_elem_of_singleton. rewrite elem_of_reverse in Ha.
    rewrite Forall_forall in Hx. unfold flip. by apply Hx.
  - done.
  - repeat constructor.
Qed.

End SortedFacts.

(** ** Order of occurrence in lists *)

Lemma sublist_filter_mono {A} (P : A → Prop) `{!∀ x, Decision (P x)} (l1 l2 : list A) :
  l1 `sublist_of` l2 → filter P l1 `sublist_of` filter P l2.
Proof.
  induction 1 as [|x l1 l2 _ IH|x l1 l2 _ IH]; [done| |].
  - rewrite !(filter_cons _ x). case_decide; [by constructor|done].
  - rewrite (filter_cons _ x). case_decide; [by constructor|done].
Qed.

Lemma sublist_reverse_mono {A} (l1 l2 : list A) :
  l1 `sublist_of` l2 → reverse l1 `sublist_of` reverse l2.
Proof.
  induction 1 as [|x l1 l2 _ IH|x l1 l2 _ IH]; [done| |].
  - rewrite !reverse_cons. by apply sublist_app.
  - rewrite reverse_cons. by apply sublist_inserts_r.
Qed.

Lemma lookup_pair_sublist {A} (l : list A) (i j : nat) a b :
  (i < j)%nat → l !! i = Some a → l !! j = Some b → [a; b] `sublist_of` l.
Proof.
  intros Hij Hi Hj. rewrite <- (take_drop_middle l i a Hi).
  apply sublist_inserts_l. constructor. apply singleton_sublist_l.
  apply list_elem_of_lookup. exists (j - S i)%nat.
  rewrite lookup_drop. by replace (S i + (j - S i))%nat with j by lia.
Qed.

Lemma sublist_pair_lookup {A} (l : list A) a b :
  [a; b] `sublist_of` l →
  ∃ i j : nat, (i < j)%nat ∧ l !! i = Some a ∧ l !! j = Some b.
Proof.
  intros (k1 & k2 & -> & Hb)%sublist_cons_l.
  apply singleton_sublist_l, list_elem_of_lookup in Hb as [m Hm].
  exists (length k1), (length k1 + S m)%nat. split_and!; [lia| |].
  - by apply list_lookup_middle.
  - rewrite lookup_app_r by lia.
    by replace (length k1 + S m - length k1)%nat with (S m) by lia.
Qed.

Lemma filter_all {A} (P : A → Prop) `{!∀ x, Decision (P x)} (l : list A) :
  Forall P l → filter P l = l.
Proof.
  induction 1 as [|x l Hx _ IH]; [done|].
  by rewrite filter_cons_True, IH.
Qed.

(** ** sortByPriority *)

Section DisplayOrder.
Context (h : gmap positive Task) (ls : list positive).

Lemma display_order_Permutation active :
  display_order active h ls ≡ₚ filter (λ l, shown h l) ls.
Proof.
  unfold display_order. destruct active.
  - by rewrite reverse_Permutation, sorted_by_Permutation.
  - apply sorted_by_Permutation.
Qed.

Lemma display_order_sorted active :
  StronglySorted (by_priority active h) (display_order active h ls).
Proof.
  unfold display_order. destruct active.
  - apply (StronglySorted_reverse (λ a b, prio h a ≤ prio h b)), sorted_by_sorted.
  - apply (sorted_by_sorted (prio h)).
Qed.

Lemma display_order_ties active p :
  filter (λ l, prio h l = p) (display_order active h ls) =
  (if active then @reverse positive else id)
    (filter (λ l, prio h l = p) (filter (λ l, shown h l) ls)).
Proof.
  unfold display_order. destruct active.
  - by rewrite filter_reverse, sorted_by_stable.
  - apply sorted_by_stable.
Qed.

Lemma display_order_shown active :
  Forall (λ l, shown h l) (display_order active h ls).
Proof.
  apply Forall_forall. intros l.
  rewrite display_order_Permutation, list_elem_of_filter. tauto.
Qed.

Lemma display_order_NoDup active : NoDup ls → NoDup (display_order active h ls).
Proof.
  intros Hnd. rewrite display_order_Permutation. by apply NoDup_filter.
Qed.

(** Two ranked tasks of one priority, in storage order [a], [b], stand in
    the display order as [a], [b] when ascending and as [b], [a] when
    descending. *)
Lemma display_order_pair (active : bool) (i j : nat) (a b : positive) :
  (i < j)%nat → ls !! i = Some a → ls !! j = Some b →
  shown h a → shown h b → prio h a = prio h b →
  (if active then [b; a] else [a; b] : list positive)
    `sublist_of` display_order active h ls.
Proof.
  intros Hij Hi Hj Ha Hb Hp.
  assert ([a; b] `sublist_of`
          filter (λ l, prio h l = prio h a) (filter (λ l, shown h l) ls)) as Hsub.
  { rewrite <- (filter_all (λ l, prio h l = prio h a) [a; b])
      by (repeat constructor; done).
    apply sublist_filter_mono.
    rewrite <- (filter_all (A:=positive) (λ l, Is_true (shown h l)) [a; b]) by (repeat constructor; done).
    apply sublist_filter_mono. by eapply lookup_pair_sublist. }
  etrans; [|apply (sublist_filter (λ l, prio h l = prio h a))].
  rewrite display_order_ties. destruct active; [|done].
  by apply sublist_reverse_mono in Hsub.
Qed.

End DisplayOrder.

Lemma sortByPriority_rank st active (n : nat) l :
  NoDup (tasks st) → display_order active (heap st) (tasks st) !! n = Some l →
  index_at (sortByPriority active st) l = Some (Z.of_nat n).
Proof.
  intros Hnd Hn. unfold index_at, sortByPriority. cbn [heap].
  rewrite (filter_all (A:=positive) (λ l, Is_true (shown (heap st) l)))
    by apply display_order_shown.
  rewrite (enumerate_assign_lookup _ _ _ n l) by (by try apply display_order_NoDup).
  assert (shown (heap st) l) as Hl.
  { pose proof (display_order_shown (heap st) (tasks st) active) as Hall.
    rewrite Forall_forall in Hall. apply Hall. by eapply list_elem_of_lookup_2. }
  unfold shown in Hl. destruct (heap st !! l); [|done]. cbn. f_equal; lia.
Qed.




(** ** One recompute pass *)

Lemma StronglySorted_weaken {A} (R R' : relation A) l :
  (∀ a b, R a b → R' a b) → StronglySorted R l → StronglySorted R' l.
Proof.
  intros HR. induction 1 as [|x l _ IH Hx]; constructor; [done|].
  eapply Forall_impl; [exact Hx|]. auto.
Qed.

Lemma filter_ext_in {A} (P Q : A → Prop) `{!∀ x, Decision (P x), !∀ x, Decision (Q x)}
    (l : list A) :
  (∀ x, x ∈ l → P x ↔ Q x) → filter P l = filter Q l.
Proof.
  induction l as [|x l IH]; intros HPQ; [done|].
  rewrite !filter_cons, IH by (intros y Hy; apply HPQ; by right).
  destruct (HPQ x ltac:(by left)). by repeat case_decide; try tauto.
Qed.

Lemma prio_same_fields st st' l :
  same_fields st st' → prio (heap st') l = prio (heap st) l.
Proof.
  intros [_ Hf]. specialize (Hf l). unfold prio.
  destruct (heap st' !! l), (heap st !! l); by simplify_eq/=.
Qed.

(** After [resetTasks] and [filterFinished] a task of the list has a
    non-negative index unless it was hidden, and then it has [-1]. *)
Lemma filtered_index st hideFinished l :
  wf st → l ∈ tasks st →
  ∃ (n : nat) t, heap st !! l = Some t ∧ tasks st !! n = Some l ∧
    heap (filterFinished hideFinished (resetTasks st)) !! l =
      Some (set_index (if hidden hideFinished (heap st) l then -1 else Z.of_nat n) t).
Proof.
  intros [Hnd Hlive]%wf_alt Hl.
  destruct (Hlive l Hl) as [t Ht].
  apply list_elem_of_lookup in Hl as Hn. destruct Hn as [n Hn].
  exists n, t. split_and!; [done..|].
  assert (heap (resetTasks st) !! l = Some (set_index (Z.of_nat n) t)) as Hreset.
  { unfold resetTasks. cbn [heap].
    by rewrite (enumerate_assign_lookup _ _ _ n l), Ht by done. }
  unfold hidden. rewrite Ht. unfold filterFinished. cbn [heap tasks].
  destruct hideFinished; cbn [andb].
  - rewrite foldl_hide_step_true. fold (heap (resetTasks st)). rewrite Hreset.
    cbn [fmap option_fmap option_map set_index status]. f_equal.
    destruct (Z.eqb_spec (status t) 2).
    + by rewrite decide_True.
    + by rewrite decide_False by tauto.
  - rewrite foldl_hide_step_false. by fold (heap (resetTasks st)).
Qed.

Lemma filtered_shown st hideFinished l :
  wf st → l ∈ tasks st →
  shown (heap (filterFinished hideFinished (resetTasks st))) l
  = negb (hidden hideFinished (heap st) l).
Proof.
  intros Hwf Hl.
  destruct (filtered_index st hideFinished l Hwf Hl) as (n & t & _ & _ & Hh).
  unfold shown. rewrite Hh. cbn [index set_index].
  destruct (hidden hideFinished (heap st) l); [done|].
  apply Z.leb_le. lia.
Qed.

Lemma filtered_same_fields st hideFinished :
  same_fields st (filterFinished hideFinished (resetTasks st)).
Proof.
  destruct (resetTasks_same_fields st) as [Ht1 Hf1].
  destruct (filterFinished_same_fields hideFinished (resetTasks st)) as [Ht2 Hf2].
  split; [by rewrite Ht2|]. intros l. by rewrite Hf2.
Qed.



(** The two scenarios of the specification. *)
Example scenario_hide_descending :
  (λ l, index_at (applyFilterAndSorting true true abc_store) l) <$> tasks abc_store
  = [Some (-1); Some 0; Some (-1)].
Proof. reflexivity. Qed.

Example scenario_show_descending :
  (λ l, index_at (applyFilterAndSorting false true abc_store) l) <$> tasks abc_store
  = [Some 2; Some 0; Some 1].
Proof. reflexivity. Qed.

(** ** [str] and [int] *)

Lemma rstrip_digits u : rstrip (NilEmpty.string_of_uint u) = NilEmpty.string_of_uint u.
Proof.
  induction u as [|u IH|u IH|u IH|u IH|u IH|u IH|u IH|u IH|u IH|u IH];
    [done|cbn [NilEmpty.string_of_uint rstrip]; rewrite IH;
          by destruct (NilEmpty.string_of_uint u)..].
Qed.

Lemma py_digits_uint u :
  u ≠ Decimal.Nil → py_digits (NilEmpty.string_of_uint u) = Some (Z.of_uint u).
Proof.
  intros Hu. unfold py_digits.
  rewrite NilEmpty.usu. by destruct u.
Qed.

Lemma py_int_uint u :
  u ≠ Decimal.Nil → py_int (NilEmpty.string_of_uint u) = Some (Z.of_uint u).
Proof.
  intros Hu. unfold py_int. rewrite rstrip_digits.
  rewrite <- (py_digits_uint u Hu). by destruct u.
Qed.

Lemma py_int_neg_uint u :
  u ≠ Decimal.Nil →
  py_int (String "-" (NilEmpty.string_of_uint u)) = Some (- Z.of_uint u).
Proof.
  intros Hu. unfold py_int. cbn [rstrip]. rewrite rstrip_digits.
  destruct (NilEmpty.string_of_uint u) as [|a s] eqn:Hs; [by destruct u|].
  cbn [lstrip]. change (py_isspace "-") with false. cbn match.
  rewrite <- Hs, py_digits_uint by done. done.
Qed.

(** [int(str(z)) == z] for every integer. *)
Lemma py_int_str z : py_int (py_str z) = Some z.
Proof.
  unfold py_str. rewrite <- (DecimalZ.of_to z) at 2.
  destruct z as [|p|p]; [done| |]; cbn [Z.to_int NilEmpty.string_of_int Z.of_int].
  - apply py_int_uint, DecimalPos.Unsigned.to_uint_nonnil.
  - rewrite py_int_neg_uint by apply DecimalPos.Unsigned.to_uint_nonnil. done.
Qed.

(** ** loadTasks *)

Lemma int_numeral k te :
  int_ (findtext k te) =
  match numeral k te with
  | Some z => Return z
  | None => Raise (match findtext k te with Some _ => ValueError | None => TypeError end)
  end.
Proof.
  unfold int_, numeral. destruct (findtext k te) as [s|]; [|done].
  cbn. by destruct (py_int s).
Qed.

Lemma load_task_numeric te : numeric_record te → load_task te = Return (record_task te).
Proof.
  intros [[p Hp] [s Hs]]. unfold load_task, record_task.
  rewrite !int_numeral, Hp, Hs. done.
Qed.

Lemma load_task_bad te :
  ¬ numeric_record te → load_task te = Raise TypeError ∨ load_task te = Raise ValueError.
Proof.
  intros Hbad. unfold load_task. rewrite !int_numeral.
  destruct (numeral "priority" te) as [p|] eqn:Hp.
  - destruct (numeral "status" te) as [s|] eqn:Hs.
    + destruct Hbad. unfold numeric_record. rewrite Hp, Hs. eauto.
    + cbn. destruct (findtext "status" te); auto.
  - cbn. destruct (findtext "priority" te); auto.
Qed.

Lemma load_loop_numeric tes : ∀ taskList,
  Forall numeric_record tes →
  load_loop tes taskList = Return (taskList ++ (record_task <$> tes)).
Proof.
  induction tes as [|te tes IH]; intros taskList Hall.
  - by rewrite app_nil_r.
  - apply Forall_cons in Hall as [Hte Hall]. cbn [load_loop].
    rewrite load_task_numeric by done. cbn.
    rewrite IH by done. by rewrite <- app_assoc.
Qed.

(** One bad record and nothing is returned, whatever was read before it. *)
Lemma load_loop_bad tes : ∀ taskList,
  Exists (λ te, ¬ numeric_record te) tes →
  load_loop tes taskList = Raise TypeError ∨ load_loop tes taskList = Raise ValueError.
Proof.
  induction tes as [|te tes IH]; intros taskList Hex; [by apply Exists_nil in Hex|].
  cbn [load_loop]. destruct (decide (numeric_record te)) as [Hte|Hte].
  - rewrite load_task_numeric by done. cbn. apply IH.
    apply Exists_cons in Hex as [?|?]; [done|done].
  - destruct (load_task_bad te Hte) as [-> | ->]; auto.
Qed.


(** The cases of C4 on sample files: a missing file, a file that is not
    XML, a good record, and a good record followed by a bad one. *)
Example loadTasks_samples :
  loadTasks sample_fs "/tmp/none.xml" = Return [Task_default] ∧
  loadTasks sample_fs "/tmp/junk.xml" = Raise ParseError ∧
  loadTasks sample_fs "/tmp/good.xml" = Return [mkTask (Some "x"%string) 2 1 0] ∧
  loadTasks sample_fs "/tmp/bad.xml" = Raise ValueError.
Proof. split_and!; reflexivity. Qed.

(** ** Saving and loading again *)

Lemma stored_Forall2 (h : gmap positive Task) ls :
  Forall (λ l, is_Some (h !! l)) ls →
  Forall2 (λ l t, h !! l = Some t) ls (omap (λ l, h !! l) ls).
Proof.
  induction 1 as [|l ls [t Ht] _ IH]; [constructor|].
  cbn [omap list_omap]. rewrite Ht. by constructor.
Qed.

Lemma text_reparse_leaf k v : default ""%string (text (reparse (leaf k v))) = v.
Proof. by destruct v. Qed.

Lemma findtext_Task_element keys t k :
  k ∈ keys → findtext k (reparse (Task_element keys t)) = Some (attr_str t k).
Proof.
  unfold findtext, find, findall, Task_element. cbn [reparse children].
  induction keys as [|k' keys IH]; intros Hk; [by apply elem_of_nil in Hk|].
  cbn [map]. rewrite filter_cons. cbn [leaf reparse tag].
  destruct (decide (k' = k)) as [->|Hne].
  - cbn [head fmap option_fmap option_map]. f_equal. apply text_reparse_leaf.
  - apply IH. by apply elem_of_cons in Hk as [->|?].
Qed.

Lemma load_task_Task_element keys t :
  keys ≡ₚ Task_keys → is_Some (name t) →
  load_task (reparse (Task_element keys t)) = Return (reloaded t).
Proof.
  intros Hkeys [n Hn]. unfold load_task.
  assert (∀ k, k ∈ Task_keys → k ∈ keys) as Hin by (intros k; by rewrite Hkeys).
  rewrite !findtext_Task_element by (apply Hin; by_evaluation).
  unfold attr_str. repeat (case_decide; try done).
  cbn [int_]. rewrite !py_int_str. cbn. unfold reloaded. by rewrite Hn.
Qed.

Lemma load_loop_Task_elements keys ts : ∀ taskList,
  keys ≡ₚ Task_keys → Forall (λ t, is_Some (name t)) ts →
  load_loop ((λ t, reparse (Task_element keys t)) <$> ts) taskList
  = Return (taskList ++ (reloaded <$> ts)).
Proof.
  induction ts as [|t ts IH]; intros taskList Hkeys Hall.
  - by rewrite app_nil_r.
  - apply Forall_cons in Hall as [Ht Hall]. cbn [fmap list_fmap load_loop].
    rewrite load_task_Task_element by done. cbn.
    rewrite IH by done. by rewrite <- app_assoc.
Qed.

Lemma findall_document settings keys st :
  findall "Task" (reparse (document settings keys st))
  = (λ t, reparse (Task_element keys t)) <$> stored st.
Proof.
  unfold findall, document. cbn [reparse children map].
  rewrite filter_cons_False by done.
  induction (stored st) as [|t ts IH]; [done|].
  cbn [map fmap list_fmap]. rewrite filter_cons_True by done. by rewrite IH.
Qed.

(** What [loadTasks] reads from the file [saveSettingsAndTasks] wrote. *)
Lemma load_saved settings keys settingsFile st fs :
  keys ≡ₚ Task_keys → Forall (λ t, is_Some (name t)) (stored st) →
  loadTasks (saveSettingsAndTasks settings keys settingsFile st fs) settingsFile
  = Return (match stored st with [] => [Task_default] | ts => reloaded <$> ts end).
Proof.
  intros Hkeys Hnames. unfold loadTasks, saveSettingsAndTasks, ET_write.
  rewrite lookup_insert_eq. cbn [ET_parse mbind result_bind].
  rewrite findall_document.
  destruct (stored st) as [|t ts] eqn:Hst; [done|].
  change (load_loop ((λ t, reparse (Task_element keys t)) <$> t :: ts) []
          = Return (reloaded <$> t :: ts)).
  by rewrite load_loop_Task_elements.
Qed.



(** A store emptied by the user is saved without records, and loading
    that file yields the default task. *)
Example save_load_empty :
  loadTasks (saveSettingsAndTasks (settingsToBeSaved false false) Task_keys
               "/tmp/settings.xml" (mkStore ∅ []) ∅) "/tmp/settings.xml"
  = Return [Task_default].
Proof. reflexivity. Qed.

(** * Further properties of the store *)

(** ** resetTasks *)

(** X1.  On a store whose list holds each live object once, [resetTasks]
    gives the task at storage position [n] the index [n], counting from 0
    (the docstring says 1..n), keeps the list, and leaves every object
    outside the list exactly as it was. *)
Theorem resetTasks_ranks (st : TaskStore) :
  wf st →
  tasks (resetTasks st) = tasks st ∧
  (∀ (n : nat) l, tasks st !! n = Some l →
     index_at (resetTasks st) l = Some (Z.of_nat n)) ∧
  (∀ l, l ∉ tasks st → heap (resetTasks st) !! l = heap st !! l).
Proof.
  intros [Hnd Hlive]%wf_alt. split_and!; [done| |].
  - intros n l Hn. unfold index_at, resetTasks. cbn [heap].
    rewrite (enumerate_assign_lookup _ _ _ n l) by done.
    destruct (Hlive l) as [t ->]; [by eapply list_elem_of_lookup_2|].
    cbn. f_equal; lia.
  - intros l Hl. by apply enumerate_assign_notin.
Qed.

Lemma resetTasks_ranks_witness :
  index_at (resetTasks abc_store) 3 = Some 2 ∧
  heap (resetTasks pending_store) !! 7%positive = heap pending_store !! 7%positive.
Proof.
  split.
  - destruct (resetTasks_ranks abc_store) as (_ & H & _); [by_evaluation|].
    apply (H 2%nat). reflexivity.
  - destruct (resetTasks_ranks pending_store) as (_ & _ & H); [by_evaluation|].
    apply H. by_evaluation.
Defined.

(** ** What a pass does not depend on *)

(** The numbering loop overwrites the index of every task it visits, so
    two heaps that differ only in the indices of those tasks come out
    equal. *)
Lemma enumerate_assign_forget ls : ∀ i (h1 h2 : gmap positive Task),
  (∀ l, fields <$> h1 !! l = fields <$> h2 !! l) →
  (∀ l, l ∉ ls → h1 !! l = h2 !! l) →
  enumerate_assign i ls h1 = enumerate_assign i ls h2.
Proof.
  induction ls as [|a ls IH]; intros i h1 h2 Hf Hout.
  - apply map_eq. intros l. apply Hout, not_elem_of_nil.
  - cbn [enumerate_assign]. apply IH.
    + intros l. by rewrite !fields_assign.
    + intros l Hl. rewrite !lookup_assign. case_decide as Hal.
      * subst l. specialize (Hf a).
        destruct (h1 !! a) as [[n1 p1 s1 i1]|], (h2 !! a) as [[n2 p2 s2 i2]|];
          by simplify_eq/=.
      * apply Hout. rewrite not_elem_of_cons. by split; [intros ->|].
Qed.

Lemma resetTasks_forget st st' :
  tasks st' = tasks st →
  (∀ l, fields <$> heap st' !! l = fields <$> heap st !! l) →
  (∀ l, l ∉ tasks st → heap st' !! l = heap st !! l) →
  resetTasks st' = resetTasks st.
Proof.
  intros Ht Hf Hout. unfold resetTasks. rewrite Ht. f_equal.
  by apply enumerate_assign_forget.
Qed.

Lemma filterFinished_unlisted hideFinished st l :
  l ∉ tasks st → heap (filterFinished hideFinished st) !! l = heap st !! l.
Proof.
  intros Hl. unfold filterFinished. cbn [heap].
  destruct hideFinished; [|by rewrite foldl_hide_step_false].
  rewrite foldl_hide_step_true. destruct (heap st !! l) as [t|]; [|done].
  cbn. by rewrite decide_False by tauto.
Qed.

Lemma sortByPriority_unlisted active st l :
  l ∉ tasks st → heap (sortByPriority active st) !! l = heap st !! l.
Proof.
  intros Hl. unfold sortByPriority. cbn [heap]. apply enumerate_assign_notin.
  rewrite list_elem_of_filter, display_order_Permutation, list_elem_of_filter. tauto.
Qed.

Lemma applyFilterAndSorting_unlisted hideFinished sortState st l :
  l ∉ tasks st →
  heap (applyFilterAndSorting hideFinished sortState st) !! l = heap st !! l.
Proof.
  intros Hl. unfold applyFilterAndSorting.
  rewrite sortByPriority_unlisted, filterFinished_unlisted by done.
  by apply enumerate_assign_notin.
Qed.

Lemma applyFilterAndSorting_same_fields hideFinished sortState st :
  same_fields st (applyFilterAndSorting hideFinished sortState st).
Proof.
  destruct (filtered_same_fields st hideFinished) as [Ht Hf].
  destruct (sortByPriority_same_fields sortState
              (filterFinished hideFinished (resetTasks st))) as [Ht' Hf'].
  unfold applyFilterAndSorting. split; [by rewrite Ht'|]. intros l. by rewrite Hf'.
Qed.

(** X2.  A recompute pass forgets every earlier pass: running
    [applyFilterAndSorting] after another one, whatever the buttons said
    then, gives the very store that running it alone gives.  In
    particular the pass is idempotent. *)
Theorem applyFilterAndSorting_forgets (st : TaskStore) (hide sort hide' sort' : bool) :
  applyFilterAndSorting hide sort (applyFilterAndSorting hide' sort' st)
  = applyFilterAndSorting hide sort st.
Proof.
  unfold applyFilterAndSorting at 1.
  rewrite (resetTasks_forget st (applyFilterAndSorting hide' sort' st)); [done|..].
  - apply applyFilterAndSorting_same_fields.
  - apply applyFilterAndSorting_same_fields.
  - intros l. apply applyFilterAndSorting_unlisted.
Qed.

(** ** deleteTask twice *)

Lemma resetTasks_idempotent st : resetTasks (resetTasks st) = resetTasks st.
Proof.
  apply resetTasks_forget; [done| |].
  - apply resetTasks_same_fields.
  - intros l. apply enumerate_assign_notin.
Qed.

Lemma deleteTask_twice (st : TaskStore) (t : positive) :
  deleteTask t (deleteTask t st) = deleteTask t st.
Proof.
  unfold deleteTask at 1.
  set (st1 := deleteTask t st).
  assert (t ∉ tasks st1) as Hout.
  { unfold st1, deleteTask, resetTasks. cbn [tasks]. rewrite list_elem_of_filter. tauto. }
  assert (filter (λ task, t ≠ task) (tasks st1) = tasks st1) as ->.
  { apply filter_all, Forall_forall. by intros l Hl ->. }
  assert (assign t (-2) (heap st1) = heap st1) as ->.
  { apply map_eq. intros l. rewrite lookup_assign. case_decide as Htl; [|done].
    subst l. unfold st1, deleteTask, resetTasks in *. cbn [heap tasks] in *.
    rewrite enumerate_assign_notin by done. rewrite lookup_assign, decide_True by done.
    by destruct (heap st !! t). }
  destruct st1 as [h1 ls1] eqn:Hst1. cbn [heap tasks].
  rewrite <- Hst1. unfold st1, deleteTask. apply resetTasks_idempotent.
Qed.

(** X3.  A second [deleteTask] for the same task (the delete button stays
    on screen while the widget slides out) changes nothing: the task is
    already out of the list and already marked. *)
Theorem deleteTask_idempotent (st : TaskStore) (t : positive) :
  deleteTask t (deleteTask t st) = deleteTask t st.
Proof. apply deleteTask_twice. Qed.

#[local] Set Warnings "-clear-no-such-hyp".

(** ** Construction of the store *)

Lemma load_loop_length tes : ∀ taskList ts,
  load_loop tes taskList = Return ts →
  length ts = (length taskList + length tes)%nat.
Proof.
  induction tes as [|te tes IH]; intros taskList ts Hload.
  - cbn in Hload. simplify_eq. cbn. lia.
  - cbn [load_loop] in Hload. destruct (load_task te) as [t|e]; [|done].
    cbn in Hload. apply IH in Hload. rewrite length_app in Hload. cbn in *. lia.
Qed.

Lemma loadTasks_nonempty fs tasksFile ts :
  loadTasks fs tasksFile = Return ts → ts ≠ [].
Proof.
  unfold loadTasks. destruct (fs !! tasksFile) as [[|root]|]; [done| |by intros [= <-]].
  cbn. destruct (findall "Task" root) as [|te tes]; [by intros [= <-]|].
  intros Hlen%load_loop_length ->. cbn in Hlen. lia.
Qed.

Lemma alloc_wf st t : wf st → wf (alloc st t).
Proof.
  intros [Hnd Hlive]%wf_alt. pose proof (is_fresh (dom (heap st))) as Hfresh.
  apply wf_alt. split; cbn [alloc tasks heap].
  - apply NoDup_app. split_and!; [done| |apply NoDup_singleton].
    intros l Hl ->%list_elem_of_singleton. apply Hfresh, elem_of_dom. auto.
  - intros l [Hl| ->%list_elem_of_singleton]%elem_of_app.
    + rewrite lookup_insert_is_Some. destruct (decide (fresh (dom (heap st)) = l)); auto.
    + rewrite lookup_insert_eq. eauto.
Qed.

(** Allocation in list order: the new references follow the old ones, each
    pointing to its task, and nothing that was in the list is disturbed. *)
Lemma foldl_alloc ts : ∀ st,
  wf st →
  ∃ ls, tasks (foldl alloc st ts) = tasks st ++ ls ∧
        Forall2 (λ l t, heap (foldl alloc st ts) !! l = Some t) ls ts ∧
        (∀ l, l ∈ tasks st → heap (foldl alloc st ts) !! l = heap st !! l) ∧
        dom (heap (foldl alloc st ts)) = dom (heap st) ∪ list_to_set ls.
Proof.
  induction ts as [|t ts IH]; intros st Hwf.
  - exists []. rewrite app_nil_r. split_and!; [done|constructor|done|set_solver].
  - cbn [foldl]. destruct (IH (alloc st t) (alloc_wf st t Hwf))
      as (ls & Htasks & Hall & Hkeep & Hdom).
    exists (fresh (dom (heap st)) :: ls).
    cbn [alloc tasks heap] in *. rewrite <- app_assoc in Htasks.
    split_and!; [done| | |].
    + constructor; [|done]. rewrite Hkeep by set_solver. apply lookup_insert_eq.
    + intros l Hl. rewrite Hkeep by set_solver. apply lookup_insert_ne.
      intros <-. apply wf_alt in Hwf as [_ Hlive].
      by apply (is_fresh (dom (heap st))), elem_of_dom, Hlive.
    + rewrite Hdom, dom_insert_L. set_solver.
Qed.

Lemma omap_Forall2 (h : gmap positive Task) ls ts :
  Forall2 (λ l t, h !! l = Some t) ls ts → omap (λ l, h !! l) ls = ts.
Proof.
  induction 1 as [|l t ls ts Hl _ IH]; [done|].
  cbn [omap list_omap]. by rewrite Hl, IH.
Qed.

Lemma stored_store_of ts : stored (store_of ts) = ts.
Proof.
  destruct (foldl_alloc ts (mkStore ∅ [])) as (ls & Htasks & Hall & _).
  { apply wf_alt. split; [constructor|]. by intros l Hl%elem_of_nil. }
  unfold stored, store_of. rewrite Htasks. by apply omap_Forall2.
Qed.

(** The tasks of a renumbered store are the old ones with their storage
    position as index. *)
Lemma stored_resetTasks st :
  wf st → stored (resetTasks st) = imap (λ n t, set_index (Z.of_nat n) t) (stored st).
Proof.
  intros Hwf. pose proof Hwf as [Hnd Hlive].
  pose proof (stored_Forall2 _ _ Hlive) as Hst. fold (stored st) in Hst.
  unfold stored at 1. apply omap_Forall2. cbn [tasks heap resetTasks].
  apply Forall2_same_length_lookup. split.
  - rewrite length_imap. by eapply Forall2_length.
  - intros n l t' Hn Hn'. rewrite list_lookup_imap in Hn'.
    destruct (Forall2_lookup_l _ _ _ _ _ Hst Hn) as (t & Ht & Hl).
    rewrite Ht in Hn'. cbn in Hn'. simplify_eq.
    rewrite (enumerate_assign_lookup _ _ _ n l), Hl by done. cbn. do 2 f_equal; lia.
Qed.

Lemma TaskStore_init_store (fs : gmap string file) (tasksFile : string) (st : TaskStore) :
  TaskStore_init fs tasksFile = Return st →
  ∃ ts, loadTasks fs tasksFile = Return ts ∧ ts ≠ [] ∧ wf st ∧
        stored st = imap (λ n t, set_index (Z.of_nat n) t) ts ∧
        length (tasks st) = length ts ∧
        dom (heap st) = list_to_set (tasks st).
Proof.
  unfold TaskStore_init. destruct (loadTasks fs tasksFile) as [ts|e] eqn:Hload; [|done].
  intros [= <-]. exists ts. fold (store_of ts).
  split_and!; [done|by eapply loadTasks_nonempty| | | |].
  - eapply same_fields_wf; [apply resetTasks_same_fields|apply store_of_wf].
  - rewrite stored_resetTasks by apply store_of_wf. by rewrite stored_store_of.
  - destruct (foldl_alloc ts (mkStore ∅ [])) as (ls & Htasks & Hall & _).
    { apply wf_alt. split; [constructor|]. by intros l Hl%elem_of_nil. }
    cbn [resetTasks tasks]. unfold store_of. rewrite Htasks. cbn.
    by eapply Forall2_length.
  - destruct (foldl_alloc ts (mkStore ∅ [])) as (ls & Htasks & _ & _ & Hdom).
    { apply wf_alt. split; [constructor|]. by intros l Hl%elem_of_nil. }
    cbn [resetTasks tasks heap]. unfold store_of. rewrite Htasks.
    apply set_eq. intros l. rewrite elem_of_dom, enumerate_assign_is_Some, <- elem_of_dom.
    rewrite Hdom. cbn. set_solver.
Qed.



(** ** Where the stable sort puts an element *)

Section Place.
Context {A : Type} (key : A → Z).

Lemma app_cons_unique (x : A) (l1 l2 k1 k2 : list A) :
  x ∉ l1 → x ∉ k1 → l1 ++ x :: l2 = k1 ++ x :: k2 → l1 = k1 ∧ l2 = k2.
Proof.
  revert k1. induction l1 as [|a l1 IH]; intros [|b k1] H1 H2 Heq; simplify_eq/=.
  - done.
  - destruct H2. by left.
  - destruct H1. by left.
  - apply not_elem_of_cons in H1 as [_ H1]. apply not_elem_of_cons in H2 as [_ H2].
    destruct (IH k1 H1 H2) as [-> ->]; done.
Qed.

Lemma filter_none (P : A → Prop) `{!∀ x, Decision (P x)} (l : list A) :
  Forall (λ a, ¬ P a) l → filter P l = [].
Proof.
  induction 1 as [|a l Ha _ IH]; [done|]. by rewrite filter_cons_False.
Qed.

Lemma length_filter_lt_eq k (l : list A) :
  (length (filter (λ a, (key a < k)%Z) l) + length (filter (λ a, (key a = k)%Z) l))%nat
  = length (filter (λ a, (key a ≤ k)%Z) l).
Proof.
  induction l as [|a l IH]; [done|].
  rewrite !filter_cons. repeat case_decide; cbn [length]; lia.
Qed.

Lemma length_filter_gt_eq k (l : list A) :
  (length (filter (λ a, (k < key a)%Z) l) + length (filter (λ a, (key a = k)%Z) l))%nat
  = length (filter (λ a, (k ≤ key a)%Z) l).
Proof.
  induction l as [|a l IH]; [done|].
  rewrite !filter_cons. repeat case_decide; cbn [length]; lia.
Qed.

Lemma length_below k (l : list A) :
  Forall (λ a, (key a ≤ k)%Z) l →
  length l = (length (filter (λ a, (key a < k)%Z) l) + length (filter (λ a, (key a = k)%Z) l))%nat.
Proof.
  intros Hall. rewrite length_filter_lt_eq. by rewrite filter_all.
Qed.

Lemma length_above k (l : list A) :
  Forall (λ a, (k ≤ key a)%Z) l →
  length l = (length (filter (λ a, (k < key a)%Z) l) + length (filter (λ a, (key a = k)%Z) l))%nat.
Proof.
  intros Hall. rewrite length_filter_gt_eq. by rewrite filter_all.
Qed.

(** In a stably sorted list without repetition, an element [x] taken from
    [v1 ++ x :: v2] has in front of it the elements of [v1] that are not
    larger and the elements of [v2] that are smaller, and behind it the
    others. *)
Lemma stable_sorted_place (v1 v2 s1 s2 : list A) (x : A) :
  NoDup (v1 ++ x :: v2) →
  s1 ++ x :: s2 ≡ₚ v1 ++ x :: v2 →
  StronglySorted (λ a b, key a ≤ key b) (s1 ++ x :: s2) →
  (∀ p, filter (λ a, key a = p) (s1 ++ x :: s2)
        = filter (λ a, key a = p) (v1 ++ x :: v2)) →
  length s1 = (length (filter (λ a, (key a ≤ key x)%Z) v1)
               + length (filter (λ a, (key a < key x)%Z) v2))%nat ∧
  length s2 = (length (filter (λ a, (key x < key a)%Z) v1)
               + length (filter (λ a, (key x ≤ key a)%Z) v2))%nat.
Proof.
  intros Hnd Hperm Hsorted Hstable.
  assert (NoDup (s1 ++ x :: s2)) as Hnds by (by rewrite Hperm).
  apply NoDup_app in Hnd as (_ & Hv1 & [Hv2 _]%NoDup_cons).
  apply NoDup_app in Hnds as (_ & Hs1 & [Hs2 _]%NoDup_cons).
  assert (x ∉ v1) as Hxv1 by (intros ?; eapply Hv1; [done|by left]).
  assert (x ∉ s1) as Hxs1 by (intros ?; eapply Hs1; [done|by left]).
  apply StronglySorted_app in Hsorted as (Hcross & _ & [Habove _]%StronglySorted_cons).
  assert (Forall (λ a, (key a ≤ key x)%Z) s1) as Hbelow.
  { apply Forall_forall. intros a Ha. apply Hcross; [done|by left]. }
  (* the class of [x] *)
  pose proof (Hstable (key x)) as Heq.
  rewrite !filter_app, !(filter_cons_True _ x) in Heq by done.
  apply app_cons_unique in Heq as [Heq1 Heq2];
    [|rewrite list_elem_of_filter; tauto..].
  (* the smaller and the larger ones *)
  assert (length (filter (λ a, (key a < key x)%Z) (s1 ++ x :: s2))
          = length (filter (λ a, (key a < key x)%Z) (v1 ++ x :: v2))) as Hlt
    by (by rewrite Hperm).
  assert (length (filter (λ a, (key x < key a)%Z) (s1 ++ x :: s2))
          = length (filter (λ a, (key x < key a)%Z) (v1 ++ x :: v2))) as Hgt
    by (by rewrite Hperm).
  rewrite !filter_app, !(filter_cons_False _ x), !length_app in Hlt by lia.
  rewrite !filter_app, !(filter_cons_False _ x), !length_app in Hgt by lia.
  rewrite (filter_none (λ a, (key a < key x)%Z) s2) in Hlt
    by (eapply Forall_impl; [exact Habove|]; cbn; lia).
  rewrite (filter_none (λ a, (key x < key a)%Z) s1) in Hgt
    by (eapply Forall_impl; [exact Hbelow|]; cbn; lia).
  cbn [length] in Hlt, Hgt. split.
  - rewrite (length_below (key x) s1), Heq1 by done.
    rewrite <- (length_filter_lt_eq (key x) v1). lia.
  - rewrite (length_above (key x) s2), Heq2 by done.
    rewrite <- (length_filter_gt_eq (key x) v2). lia.
Qed.

End Place.

(** ** The index of a task as a count *)

Lemma Is_true_ltb a b : a < b ↔ Is_true (a <? b).
Proof. rewrite Is_true_true. symmetry. apply Z.ltb_lt. Qed.

Lemma Is_true_leb a b : a ≤ b ↔ Is_true (a <=? b).
Proof. rewrite Is_true_true. symmetry. apply Z.leb_le. Qed.

Section Rank.
Context (st : TaskStore) (hideFinished : bool) (Hwf : wf st).

Let st2 := filterFinished hideFinished (resetTasks st).

Lemma filtered_task l :
  l ∈ tasks st →
  ∃ t, heap st !! l = Some t ∧
       shown (heap st2) l = stays hideFinished t ∧
       prio (heap st2) l = priority t ∧
       (stays hideFinished t = false → index_at st2 l = Some (-1)).
Proof.
  intros Hl. destruct (filtered_index st hideFinished l Hwf Hl) as (n & t & Ht & _ & Hh).
  exists t. unfold index_at, shown, prio, st2. rewrite Hh.
  unfold hidden, stays. rewrite Ht. cbn.
  destruct (hideFinished && (status t =? 2)); cbn; split_and!; try done.
  apply Z.leb_le. lia.
Qed.

(** Counting references that pass the filter and a test on the priority is
    counting their tasks. *)
Lemma count_visible_values (P : Z → Prop) {dec : ∀ z, Decision (P z)} (Pb : Z → bool) ls :
  (∀ z, P z ↔ Pb z) → (∀ l, l ∈ ls → l ∈ tasks st) →
  length (filter (λ l, P (prio (heap st2) l)) (filter (λ l, shown (heap st2) l) ls))
  = count_visible hideFinished Pb (values (heap st) ls).
Proof.
  intros HP. unfold count_visible, values.
  induction ls as [|a ls IH]; intros Hin; [done|].
  destruct (filtered_task a) as (t & Ht & Hshown & Hprio & _); [apply Hin; by left|].
  assert (∀ l, l ∈ ls → l ∈ tasks st) as Hin' by (intros l Hl; apply Hin; by right).
  specialize (IH Hin').
  cbn [omap list_omap]. rewrite Ht.
  rewrite (filter_cons _ a), (filter_cons _ t), Hshown.
  destruct (stays hideFinished t); cbn [andb].
  - rewrite decide_True by exact I. rewrite (filter_cons _ a), Hprio.
    destruct (decide (P (priority t))) as [Hp|Hp].
    + rewrite decide_True by (by apply HP). cbn [length]. by rewrite IH.
    + rewrite decide_False by (by rewrite <- HP). exact IH.
  - rewrite !decide_False by exact id. exact IH.
Qed.

Lemma apply_rank sortState l1 l l2 t :
  tasks st = l1 ++ l :: l2 → heap st !! l = Some t →
  index_at (applyFilterAndSorting hideFinished sortState st) l
  = Some (rank_of hideFinished sortState
            (values (heap st) l1) t (values (heap st) l2)).
Proof.
  intros Hsplit Ht. pose proof Hwf as [Hnd _].
  assert (l ∈ tasks st) as Hl by (rewrite Hsplit; set_solver).
  destruct (filtered_task l Hl) as (t' & Ht' & Hshown & Hprio & Hhid).
  assert (t' = t) as -> by congruence.
  unfold applyFilterAndSorting. fold st2. unfold rank_of.
  destruct (stays hideFinished t) eqn:Hstays.
  - (* ranked: find its place in the sorted list *)
    set (key := prio (heap st2)).
    set (v1 := filter (λ l, shown (heap st2) l) l1).
    set (v2 := filter (λ l, shown (heap st2) l) l2).
    assert (filter (λ l, shown (heap st2) l) (tasks st2) = v1 ++ l :: v2) as Hvis.
    { change (tasks st2) with (tasks st).
      rewrite Hsplit, filter_app, filter_cons_True; [done|by rewrite Hshown]. }
    assert (NoDup (v1 ++ l :: v2)) as Hndv.
    { rewrite <- Hvis. by apply NoDup_filter. }
    pose proof (sorted_by_Permutation key (v1 ++ l :: v2)) as Hperm.
    assert (l ∈ sorted_by key (v1 ++ l :: v2)) as Hin by (rewrite Hperm; set_solver).
    apply list_elem_of_split in Hin as (s1 & s2 & Hs).
    destruct (stable_sorted_place key v1 v2 s1 s2 l Hndv) as [Hlen1 Hlen2].
    { by rewrite <- Hs. }
    { rewrite <- Hs. apply sorted_by_sorted. }
    { intros p. rewrite <- Hs. apply sorted_by_stable. }
    assert (∀ l', l' ∈ l1 → l' ∈ tasks st) as Hin1 by (rewrite Hsplit; set_solver).
    assert (∀ l', l' ∈ l2 → l' ∈ tasks st) as Hin2 by (rewrite Hsplit; set_solver).
    unfold key in Hlen1, Hlen2. rewrite Hprio in Hlen1, Hlen2.
    unfold v1, v2 in Hlen1, Hlen2.
    rewrite (sortByPriority_rank st2 sortState
               (if sortState then length s2 else length s1) l); [|done|].
    + destruct sortState.
      * rewrite Hlen2. do 3 f_equal.
        -- by apply (count_visible_values (λ z, priority t < z)
                     (dec := λ z, decide_rel Z.lt (priority t) z));
             [intros z; apply Is_true_ltb|].
        -- by apply (count_visible_values (λ z, priority t ≤ z)
                     (dec := λ z, decide_rel Z.le (priority t) z));
             [intros z; apply Is_true_leb|].
      * rewrite Hlen1. do 3 f_equal.
        -- by apply (count_visible_values (λ z, z ≤ priority t)
                     (dec := λ z, decide_rel Z.le z (priority t)));
             [intros z; apply Is_true_leb|].
        -- by apply (count_visible_values (λ z, z < priority t)
                     (dec := λ z, decide_rel Z.lt z (priority t)));
             [intros z; apply Is_true_ltb|].
    + unfold display_order. rewrite Hvis. fold key. rewrite Hs. destruct sortState.
      * rewrite reverse_app, reverse_cons, <- app_assoc.
        apply list_lookup_middle. by rewrite length_reverse.
      * by apply list_lookup_middle.
  - (* hidden *)
    unfold index_at. rewrite sortByPriority_hidden.
    + by apply Hhid.
    + by rewrite Hshown.
Qed.

End Rank.

(** X5.  The index a recompute pass gives to a task is a count.  For a
    store whose list holds each live object once and a task [t] stored
    between [l1] and [l2]: if the filter hides [t] its index is [-1];
    otherwise, ascending, it is the number of visible tasks of [l1] with
    priority at most that of [t] plus the number of visible tasks of [l2]
    with smaller priority, and, descending, the number of visible tasks of
    [l1] with larger priority plus the number of visible tasks of [l2] with
    priority at least that of [t]. *)
Theorem applyFilterAndSorting_rank (st : TaskStore) (hideFinished sortState : bool)
    (l1 l2 : list positive) (l : positive) (t : Task) :
  wf st → tasks st = l1 ++ l :: l2 → heap st !! l = Some t →
  index_at (applyFilterAndSorting hideFinished sortState st) l
  = Some (rank_of hideFinished sortState
            (values (heap st) l1) t (values (heap st) l2)).
Proof. intros Hwf. by apply apply_rank. Qed.

Lemma applyFilterAndSorting_rank_witness :
  index_at (applyFilterAndSorting false true abc_store) 3 = Some 1 ∧
  index_at (applyFilterAndSorting true false abc_store) 3 = Some (-1).
Proof.
  split.
  - apply (applyFilterAndSorting_rank abc_store false true [1; 2]%positive []
             3%positive (set_index 2 task_C)); [by_evaluation|reflexivity..].
  - apply (applyFilterAndSorting_rank abc_store true false [1; 2]%positive []
             3%positive (set_index 2 task_C)); [by_evaluation|reflexivity..].
Defined.

(** ** The display order depends on little *)

Section SortedExt.
Context {A : Type} (key1 key2 : A → Z).

Lemma insert_by_ext x l :
  key1 x = key2 x → (∀ y, y ∈ l → key1 y = key2 y) →
  insert_by key1 x l = insert_by key2 x l.
Proof.
  intros Hx. induction l as [|y l IH]; intros Hl; [done|].
  cbn [insert_by]. rewrite Hx, (Hl y) by (by left).
  rewrite IH by (intros z Hz; apply Hl; by right). done.
Qed.

Lemma sorted_by_ext l :
  (∀ y, y ∈ l → key1 y = key2 y) → sorted_by key1 l = sorted_by key2 l.
Proof.
  induction l as [|x l IH]; intros Hl; [done|].
  cbn [sorted_by foldr]. fold (sorted_by key1 l). fold (sorted_by key2 l).
  rewrite IH by (intros z Hz; apply Hl; by right).
  apply insert_by_ext; [apply Hl; by left|].
  intros y Hy. apply Hl. right. by rewrite sorted_by_Permutation in Hy.
Qed.

End SortedExt.

Lemma display_order_ext active (h1 h2 : gmap positive Task) ls :
  (∀ l, l ∈ ls → shown h1 l = shown h2 l) →
  (∀ l, l ∈ ls → prio h1 l = prio h2 l) →
  display_order active h1 ls = display_order active h2 ls.
Proof.
  intros Hshown Hprio. unfold display_order.
  rewrite (filter_ext_in (λ l, Is_true (shown h1 l)) (λ l, Is_true (shown h2 l)))
    by (intros l Hl; by rewrite Hshown).
  rewrite (sorted_by_ext (prio h1) (prio h2)); [done|].
  intros l [_ Hl]%list_elem_of_filter. by apply Hprio.
Qed.

(** [sortByPriority] does not change which tasks have [index >= 0]. *)
Lemma sortByPriority_shown active st l :
  shown (heap (sortByPriority active st)) l = shown (heap st) l.
Proof.
  unfold sortByPriority. cbn [heap].
  set (ranked := filter _ (display_order _ _ _)).
  destruct (decide (l ∈ ranked)) as [Hin|Hout].
  - destruct (enumerate_assign_elem ranked 0 (heap st) l Hin) as (n & _ & Hn).
    apply list_elem_of_filter in Hin as [Hl _].
    unfold shown in *. rewrite Hn. destruct (heap st !! l) as [t|]; [|done].
    cbn. destruct (0 <=? index t); [|done]. apply Z.leb_le. lia.
  - unfold shown. by rewrite enumerate_assign_notin.
Qed.

Lemma sortByPriority_prio active st l :
  prio (heap (sortByPriority active st)) l = prio (heap st) l.
Proof. apply prio_same_fields, sortByPriority_same_fields. Qed.

(** X6.  [sortByPriority] looks at which tasks have a non-negative index,
    never at the values: sorting a store that was sorted before, in either
    direction, gives the same store as sorting it directly. *)
Theorem sortByPriority_forgets (st : TaskStore) (active active' : bool) :
  sortByPriority active (sortByPriority active' st) = sortByPriority active st.
Proof.
  set (st1 := sortByPriority active' st).
  unfold sortByPriority at 1 2.
  change (tasks st1) with (tasks st). f_equal.
  rewrite (display_order_ext active (heap st1) (heap st))
    by (intros; apply sortByPriority_shown || apply sortByPriority_prio).
  rewrite (filter_ext_in (λ l, Is_true (shown (heap st1) l))
             (λ l, Is_true (shown (heap st) l)))
    by (intros l _; unfold st1; by rewrite sortByPriority_shown).
  apply enumerate_assign_forget.
  - apply sortByPriority_same_fields.
  - intros l Hl. apply enumerate_assign_notin. intros Hin. apply Hl.
    rewrite !list_elem_of_filter, !display_order_Permutation,
      !list_elem_of_filter in *. tauto.
Qed.

(** ** Task.__str__ and copyToClipboard *)

Lemma py_getitem_status_names s :
  py_getitem status_names s =
  if decide (-3 ≤ s ≤ 2) then status_names !! Z.to_nat (s `mod` 3) else None.
Proof.
  unfold py_getitem. case_decide as Hs.
  - assert (s = -3 ∨ s = -2 ∨ s = -1 ∨ s = 0 ∨ s = 1 ∨ s = 2) as Hcases by lia.
    by destruct Hcases as [->|[->|[->|[->|[->| ->]]]]].
  - destruct (Z.leb_spec 0 s).
    + apply lookup_ge_None. cbn. lia.
    + cbn [length status_names]. destruct (Z.leb_spec (- Z.of_nat 3) s); [lia|done].
Qed.

Lemma Task_str_None t : status t < -3 ∨ 2 < status t ↔ Task_str t = None.
Proof.
  unfold Task_str. rewrite py_getitem_status_names. case_decide as Hs.
  - assert (is_Some (status_names !! Z.to_nat (status t `mod` 3))) as [label ->].
    { apply lookup_lt_is_Some. cbn. pose proof (Z.mod_pos_bound (status t) 3). lia. }
    cbn. split; [lia|done].
  - cbn. split; [done|lia].
Qed.

(** X7.  [Task.__str__] raises (IndexError) exactly when the status is
    below -3 or above 2.  From -3 to 2 it returns the line with the status
    name at position [status mod 3]: a status of -1 prints as "finished"
    just like 2, although only 2 is hidden by [filterFinished]. *)
Theorem Task_str_spec (t : Task) :
  (Task_str t = None ↔ status t < -3 ∨ 2 < status t) ∧
  (∀ s, Task_str t = Some s ↔
        ∃ label, -3 ≤ status t ≤ 2 ∧
                 status_names !! Z.to_nat (status t `mod` 3) = Some label ∧
                 s = Task_line t label).
Proof.
  unfold Task_str. rewrite py_getitem_status_names. case_decide as Hs.
  - assert (∃ label, status_names !! Z.to_nat (status t `mod` 3) = Some label)
      as [label Hlabel].
    { apply lookup_lt_is_Some. cbn. pose proof (Z.mod_pos_bound (status t) 3). lia. }
    rewrite Hlabel. cbn. split.
    + split; [done|lia].
    + intros s. split.
      * intros [= <-]. eauto.
      * intros (label' & _ & ? & ->). by simplify_eq.
  - cbn. split.
    + split; [lia|done].
    + intros s. split; [done|]. by intros (? & ? & _).
Qed.

Section Clipboard.
Context (st : TaskStore) (hideFinished sortState : bool) (Hwf : wf st).

Let st' := applyFilterAndSorting hideFinished sortState st.
Let ranked := display_order sortState (heap st') (tasks st').

(** The list [copyToClipboard] sorts again is the display order the pass
    ranked. *)
Lemma ranked_lookup (n : nat) l :
  ranked !! n = Some l ↔ l ∈ tasks st ∧ index_at st' l = Some (Z.of_nat n).
Proof.
  set (st2 := filterFinished hideFinished (resetTasks st)).
  assert (ranked = display_order sortState (heap st2) (tasks st2)) as Hranked.
  { unfold ranked, st', applyFilterAndSorting. fold st2.
    apply display_order_ext; intros l' _;
      [apply sortByPriority_shown|apply sortByPriority_prio]. }
  assert (NoDup (tasks st2)) as Hnd by apply Hwf.
  split.
  - intros Hn. split.
    + apply list_elem_of_lookup_2 in Hn. rewrite Hranked in Hn.
      rewrite display_order_Permutation in Hn.
      by apply list_elem_of_filter in Hn as [_ Hn].
    + rewrite Hranked in Hn. by apply sortByPriority_rank.
  - intros [Hl Hidx].
    assert (shown (heap st') l) as Hshown.
    { unfold index_at in Hidx. unfold shown.
      destruct (heap st' !! l) as [t|]; [|done]. cbn in Hidx. simplify_eq.
      apply Is_true_leb. lia. }
    assert (l ∈ ranked) as Hin.
    { unfold ranked. rewrite display_order_Permutation. by apply list_elem_of_filter. }
    apply list_elem_of_lookup in Hin as [m Hm].
    assert (index_at st' l = Some (Z.of_nat m)) as Hidx'.
    { rewrite Hranked in Hm. by apply sortByPriority_rank. }
    assert (m = n) as -> by (rewrite Hidx in Hidx'; simplify_eq; lia).
    done.
Qed.

Lemma copyToClipboard_raises :
  copyToClipboard sortState st' = None ↔
  ∃ l t, l ∈ tasks st ∧ heap st' !! l = Some t ∧ 0 ≤ index t ∧
         (status t < -3 ∨ 2 < status t).
Proof.
  unfold copyToClipboard. fold ranked.
  destruct (mapM _ ranked) as [texts|] eqn:Htexts; cbn [mbind option_bind].
  - split; [done|]. intros (l & t & Hl & Ht & Hpos & Hbad).
    assert (l ∈ ranked) as Hin.
    { unfold ranked. rewrite display_order_Permutation. apply list_elem_of_filter.
      split; [|done]. unfold shown. rewrite Ht. by apply Is_true_leb. }
    apply mapM_Some_1 in Htexts.
    apply list_elem_of_lookup in Hin as [n Hn].
    destruct (Forall2_lookup_l _ _ _ _ _ Htexts Hn) as (s & _ & Hs).
    rewrite Ht in Hs. cbn in Hs.
    apply (proj1 (Task_str_None t)) in Hbad. congruence.
  - split; [|done]. intros _.
    apply mapM_None_1, Exists_exists in Htexts as (l & Hin & Hnone).
    apply list_elem_of_lookup in Hin as [n Hn].
    apply ranked_lookup in Hn as [Hl Hidx].
    unfold index_at in Hidx. destruct (heap st' !! l) as [t|] eqn:Ht; [|done].
    cbn in Hidx, Hnone. simplify_eq.
    exists l, t. split_and!; [done|done|lia|]. by apply Task_str_None.
Qed.

End Clipboard.



(** ** A pass on the stored values *)

Lemma count_visible_fields hideFinished P ts1 : ∀ ts2,
  fields <$> ts1 = fields <$> ts2 →
  count_visible hideFinished P ts1 = count_visible hideFinished P ts2.
Proof.
  unfold count_visible.
  induction ts1 as [|t1 ts1 IH]; intros [|t2 ts2] Heq; try done.
  cbn in Heq. injection Heq as Hn Hp Hs Heq. specialize (IH ts2 Heq).
  rewrite !filter_cons. unfold stays in *. rewrite Hp, Hs.
  case_decide; cbn [length]; by rewrite IH.
Qed.

Lemma rank_of_fields hideFinished sortState b1 b2 t1 t2 a1 a2 :
  fields <$> b1 = fields <$> b2 → fields t1 = fields t2 →
  fields <$> a1 = fields <$> a2 →
  rank_of hideFinished sortState b1 t1 a1 = rank_of hideFinished sortState b2 t2 a2.
Proof.
  intros Hb [= Hn Hp Hs] Ha. unfold rank_of, stays. rewrite Hp, Hs.
  by rewrite !(count_visible_fields hideFinished _ b1 b2),
             !(count_visible_fields hideFinished _ a1 a2).
Qed.

(** The indices depend on the priorities and statuses in storage order and
    on nothing else. *)
Lemma ranks_fields hideFinished sortState ts1 ts2 :
  fields <$> ts1 = fields <$> ts2 →
  ranks hideFinished sortState ts1 = ranks hideFinished sortState ts2.
Proof.
  intros Heq. apply list_eq. intros n. unfold ranks. rewrite !list_lookup_imap.
  assert (fields <$> ts1 !! n = fields <$> ts2 !! n) as Hn
    by (by rewrite <- !list_lookup_fmap, Heq).
  destruct (ts1 !! n) as [t1|], (ts2 !! n) as [t2|]; try done.
  cbn in *. f_equal. apply rank_of_fields.
  - by rewrite !fmap_take, Heq.
  - congruence.
  - by rewrite !fmap_drop, Heq.
Qed.

Lemma stored_applyFilterAndSorting st hideFinished sortState :
  wf st →
  stored (applyFilterAndSorting hideFinished sortState st)
  = imap (λ n t, set_index (rank_of hideFinished sortState (take n (stored st)) t
                              (drop (S n) (stored st))) t) (stored st).
Proof.
  intros Hwf. pose proof Hwf as [Hnd Hlive].
  pose proof (stored_Forall2 _ _ Hlive) as Hst. fold (stored st) in Hst.
  unfold stored at 1. apply omap_Forall2.
  change (tasks (applyFilterAndSorting hideFinished sortState st)) with (tasks st).
  apply Forall2_same_length_lookup. split.
  - rewrite length_imap. by eapply Forall2_length.
  - intros n l t' Hn Hn'. rewrite list_lookup_imap in Hn'.
    destruct (Forall2_lookup_l _ _ _ _ _ Hst Hn) as (t & Ht & Hl).
    rewrite Ht in Hn'. cbn in Hn'. simplify_eq.
    pose proof (apply_rank st hideFinished Hwf sortState (take n (tasks st)) l
                  (drop (S n) (tasks st)) t) as Hrank.
    rewrite take_drop_middle in Hrank by done. specialize (Hrank eq_refl Hl).
    assert (values (heap st) (take n (tasks st)) = take n (stored st)) as Htake.
    { apply omap_Forall2. by apply Forall2_take. }
    assert (values (heap st) (drop (S n) (tasks st)) = drop (S n) (stored st)) as Hdrop.
    { apply omap_Forall2. by apply Forall2_drop. }
    rewrite Htake, Hdrop in Hrank.
    destruct (applyFilterAndSorting_same_fields hideFinished sortState st) as [_ Hf].
    specialize (Hf l). rewrite Hl in Hf. unfold index_at in Hrank.
    destruct (heap (applyFilterAndSorting hideFinished sortState st) !! l)
      as [[n' p' s' i']|]; [|done].
    cbn in Hf, Hrank. destruct t. by simplify_eq/=.
Qed.

Lemma index_stored_applyFilterAndSorting st hideFinished sortState :
  wf st →
  index <$> stored (applyFilterAndSorting hideFinished sortState st)
  = ranks hideFinished sortState (stored st).
Proof.
  intros Hwf. rewrite stored_applyFilterAndSorting by done.
  unfold ranks. apply list_eq. intros n.
  rewrite list_lookup_fmap, !list_lookup_imap. by destruct (stored st !! n).
Qed.

Lemma fields_stored_applyFilterAndSorting st hideFinished sortState :
  wf st →
  fields <$> stored (applyFilterAndSorting hideFinished sortState st)
  = fields <$> stored st.
Proof.
  intros Hwf. rewrite stored_applyFilterAndSorting by done.
  apply list_eq. intros n.
  rewrite !list_lookup_fmap, !list_lookup_imap. by destruct (stored st !! n).
Qed.

(** ** Settings and sessions *)

Lemma findtext_leaves tg (kvs : list (string * string)) k v :
  NoDup kvs.*1 → (k, v) ∈ kvs →
  findtext k (reparse (mkElement tg None (map (λ kv, leaf kv.1 kv.2) kvs))) = Some v.
Proof.
  unfold findtext, find, findall. cbn [reparse children].
  induction kvs as [|[k' v'] kvs IH]; intros Hnd Hin; [by apply elem_of_nil in Hin|].
  cbn [fmap list_fmap fst] in Hnd. apply NoDup_cons in Hnd as [Hk' Hnd].
  cbn [map fst snd]. rewrite filter_cons. cbn [leaf reparse tag].
  destruct (decide (k' = k)) as [->|Hne].
  - apply elem_of_cons in Hin as [[= ->]|Hin].
    + cbn [head fmap option_fmap option_map]. f_equal. apply text_reparse_leaf.
    + destruct Hk'. apply list_elem_of_fmap. by exists (k, v).
  - apply IH; [done|]. apply elem_of_cons in Hin as [[= ? ?]|Hin]; [done|done].
Qed.

Lemma find_Settings settings keys st :
  find "Settings" (reparse (document settings keys st))
  = Some (reparse (mkElement "Settings" None (map (λ kv, leaf kv.1 kv.2) settings))).
Proof.
  unfold find, findall, document. cbn [reparse children map].
  by rewrite filter_cons_True by done.
Qed.

Lemma loadSettings_saved eval_ settings keys settingsFile st fs hide sort buttons :
  eval_ "True"%string = Some true → eval_ "False"%string = Some false →
  settings ≡ₚ settingsToBeSaved hide sort →
  loadSettings eval_ (saveSettingsAndTasks settings keys settingsFile st fs)
               settingsFile buttons = Some (hide, sort).
Proof.
  intros Htrue Hfalse Hperm.
  assert (∀ b, eval_ (str_bool b) = Some b) as Heval by (by intros []).
  assert (NoDup settings.*1) as Hnd by
    (rewrite Hperm; cbn; apply NoDup_cons; split; [set_solver|apply NoDup_singleton]).
  unfold loadSettings, saveSettingsAndTasks, ET_write.
  rewrite lookup_insert_eq. cbn [ET_parse]. rewrite find_Settings.
  cbn [mbind option_bind].
  rewrite (findtext_leaves _ settings "hideFinished" (str_bool hide))
    by (done || rewrite Hperm; set_solver).
  rewrite (findtext_leaves _ settings "sortState" (str_bool sort))
    by (done || rewrite Hperm; set_solver).
  cbn [mbind option_bind]. by rewrite !Heval.
Qed.







(** ** The store under the handlers *)

Lemma rank_of_lower hideFinished sortState before t after :
  -1 ≤ rank_of hideFinished sortState before t after.
Proof. unfold rank_of. destruct (stays hideFinished t); lia. Qed.

Lemma wf_live st l : wf st → l ∈ tasks st → is_Some (heap st !! l).
Proof. intros [_ Hlive]%wf_alt. apply Hlive. Qed.

Lemma applyFilterAndSorting_tidy st hideFinished sortState :
  wf st → tidy st → tidy (applyFilterAndSorting hideFinished sortState st).
Proof.
  intros Hwf Htidy l t' Ht'.
  change (tasks (applyFilterAndSorting hideFinished sortState st)) with (tasks st).
  case_decide as Hl.
  - destruct (wf_live st l Hwf Hl) as [t Ht].
    destruct (list_elem_of_split _ _ Hl) as (l1 & l2 & Hsplit).
    pose proof (apply_rank st hideFinished Hwf sortState l1 l l2 t Hsplit Ht) as Hrank.
    unfold index_at in Hrank. rewrite Ht' in Hrank. cbn in Hrank.
    injection Hrank as Hrank. rewrite Hrank. apply rank_of_lower.
  - rewrite applyFilterAndSorting_unlisted in Ht' by done.
    specialize (Htidy l t' Ht'). by rewrite decide_False in Htidy.
Qed.

Lemma addTask_tidy st : wf st → tidy st → tidy (addTask st).1.
Proof.
  intros Hwf Htidy l t. cbn [addTask fst heap tasks].
  pose proof (is_fresh (dom (heap st))) as Hfresh.
  rewrite lookup_insert. case_decide as Hl.
  - subst l. intros [= <-]. by rewrite decide_True by (by left).
  - intros Ht. specialize (Htidy l t Ht).
    destruct (decide (l ∈ tasks st)).
    + by rewrite decide_True by (by right).
    + rewrite decide_False; [done|]. rewrite elem_of_cons. naive_solver.
Qed.

Lemma deleteTask_tasks t st :
  tasks (deleteTask t st) = filter (λ task, t ≠ task) (tasks st).
Proof. done. Qed.

Lemma deleteTask_wf t st : wf st → wf (deleteTask t st).
Proof.
  intros [Hnd Hlive]%wf_alt. apply wf_alt. rewrite deleteTask_tasks. split.
  - by apply NoDup_filter.
  - intros l [_ Hl]%list_elem_of_filter. unfold deleteTask, resetTasks. cbn [heap].
    apply enumerate_assign_is_Some. unfold assign. apply lookup_alter_is_Some. auto.
Qed.

Lemma deleteTask_tidy t st : tidy st → tidy (deleteTask t st).
Proof.
  intros Htidy l x Hx. rewrite deleteTask_tasks.
  unfold deleteTask, resetTasks in Hx. cbn [heap tasks] in Hx.
  case_decide as Hl.
  - destruct (enumerate_assign_elem _ 0 (assign t (-2) (heap st)) l Hl) as (n & _ & Hn).
    rewrite Hn in Hx. destruct (assign t (-2) (heap st) !! l); simplify_eq/=. lia.
  - rewrite enumerate_assign_notin, lookup_assign in Hx by done.
    case_decide as Htl.
    + destruct (heap st !! l); by simplify_eq/=.
    + specialize (Htidy l x Hx). destruct (decide (l ∈ tasks st)) as [Hin|]; [|done].
      destruct Hl. apply list_elem_of_filter. done.
Qed.

(** A store that differs from another in names, priorities and statuses
    only. *)
Lemma same_index_wf st st' :
  tasks st' = tasks st →
  (∀ l, index <$> heap st' !! l = index <$> heap st !! l) →
  wf st → wf st'.
Proof.
  intros Ht Hi [Hnd Hlive]%wf_alt. apply wf_alt. rewrite Ht. split; [done|].
  intros l Hl. apply (fmap_is_Some index). rewrite Hi. apply fmap_is_Some. auto.
Qed.

Lemma same_index_tidy st st' :
  tasks st' = tasks st →
  (∀ l, index <$> heap st' !! l = index <$> heap st !! l) →
  tidy st → tidy st'.
Proof.
  intros Ht Hi Htidy l t' Ht'. rewrite Ht. specialize (Hi l). rewrite Ht' in Hi.
  destruct (heap st !! l) as [t|] eqn:Hl; [|done]. cbn in Hi. injection Hi as ->.
  by apply Htidy.
Qed.

Lemma setter_index (f : Task → Task) l (h : gmap positive Task) l' :
  (∀ t, index (f t) = index t) →
  index <$> alter f l h !! l' = index <$> h !! l'.
Proof.
  intros Hf. rewrite lookup_alter. case_decide; [|done]. subst.
  destruct (h !! l'); [|done]. cbn. by rewrite Hf.
Qed.

(** ** Widgets and tasks *)

Section Widgets.
Context (wt : gmap positive positive).

Lemma length_omap_le (tws : list positive) :
  (length (omap (λ tw, wt !! tw) tws) ≤ length tws)%nat.
Proof.
  induction tws as [|tw tws IH]; [done|].
  cbn [omap list_omap]. destruct (wt !! tw); cbn [length]; lia.
Qed.

Lemma omap_all_length (tws : list positive) :
  length (omap (λ tw, wt !! tw) tws) = length tws →
  Forall (λ tw, is_Some (wt !! tw)) tws.
Proof.
  induction tws as [|tw tws IH]; [constructor|].
  cbn [omap list_omap]. intros Hlen.
  pose proof (length_omap_le tws) as Hle.
  destruct (wt !! tw) as [t|] eqn:Htw; cbn [length] in Hlen.
  - constructor; [done|]. apply IH. lia.
  - lia.
Qed.

Lemma omap_length_all (tws : list positive) :
  Forall (λ tw, is_Some (wt !! tw)) tws →
  length (omap (λ tw, wt !! tw) tws) = length tws.
Proof.
  induction 1 as [|tw tws [t Ht] _ IH]; [done|].
  cbn [omap list_omap]. rewrite Ht. cbn. by rewrite IH.
Qed.

(** Taking a widget out of the list takes its task out of the tasks. *)
Lemma omap_filter_widget (tws : list positive) tw t :
  (∀ tw1 tw2 t, wt !! tw1 = Some t → wt !! tw2 = Some t → tw1 = tw2) →
  wt !! tw = Some t → Forall (λ tw, is_Some (wt !! tw)) tws →
  omap (λ tw, wt !! tw) (filter (λ taskWidget, tw ≠ taskWidget) tws)
  = filter (λ task, t ≠ task) (omap (λ tw, wt !! tw) tws).
Proof.
  intros Hinj Htw. induction 1 as [|tw' tws [t' Ht'] _ IH]; [done|].
  rewrite filter_cons. cbn [omap list_omap]. rewrite Ht', filter_cons.
  destruct (decide (tw ≠ tw')) as [Hne|Heq].
  - cbn [omap list_omap]. rewrite Ht', IH.
    rewrite decide_True; [done|]. intros <-. apply Hne. by eapply Hinj.
  - rewrite IH. rewrite decide_False; [done|].
    intros Hne. apply Heq. intros <-. congruence.
Qed.

Lemma widgets_match_listed tws st :
  widgets_match wt tws st → Forall (λ tw, is_Some (wt !! tw)) tws.
Proof.
  intros (_ & Hperm & Hlen & _). apply omap_all_length.
  by rewrite Hperm.
Qed.

(** Changes of the store that keep its list and its objects. *)
Lemma widgets_match_frame tws st st' :
  tasks st' = tasks st →
  (∀ l, is_Some (heap st !! l) → is_Some (heap st' !! l)) →
  widgets_match wt tws st → widgets_match wt tws st'.
Proof.
  intros Ht Hh (Hnd & Hperm & Hlen & Hinj & Hlive).
  unfold widgets_match. rewrite Ht. split_and!; try done.
  intros tw t Htw. eapply Hh, Hlive, Htw.
Qed.

Lemma widgets_match_delete tws st tw t :
  widgets_match wt tws st → wt !! tw = Some t →
  widgets_match wt (filter (λ taskWidget, tw ≠ taskWidget) tws) (deleteTask t st).
Proof.
  intros Hm Htw. pose proof (widgets_match_listed _ _ Hm) as Hall.
  destruct Hm as (Hnd & Hperm & Hlen & Hinj & Hlive).
  assert (omap (λ tw, wt !! tw) (filter (λ taskWidget, tw ≠ taskWidget) tws)
          ≡ₚ tasks (deleteTask t st)) as Hperm'.
  { rewrite (omap_filter_widget tws tw t) by done.
    rewrite deleteTask_tasks. by rewrite Hperm. }
  split_and!.
  - by apply NoDup_filter.
  - done.
  - rewrite <- Hperm'. symmetry. apply omap_length_all.
    apply Forall_forall. intros tw' [_ Hin]%list_elem_of_filter.
    rewrite Forall_forall in Hall. auto.
  - done.
  - intros tw' t' Htw'. unfold deleteTask, resetTasks. cbn [heap].
    apply enumerate_assign_is_Some. unfold assign. apply lookup_alter_is_Some. eauto.
Qed.

End Widgets.

Lemma omap_Forall2_gen (wt : gmap positive positive) tws ts :
  Forall2 (λ tw t, wt !! tw = Some t) tws ts → omap (λ tw, wt !! tw) tws = ts.
Proof.
  induction 1 as [|tw t tws ts Htw _ IH]; [done|].
  cbn [omap list_omap]. by rewrite Htw, IH.
Qed.

Lemma widgets_match_add wt tws st :
  wf st → widgets_match wt tws st →
  widgets_match (<[fresh (dom wt) := (addTask st).2]> wt)
                (tws ++ [fresh (dom wt)]) (addTask st).1.
Proof.
  intros Hwf Hm. pose proof (widgets_match_listed _ _ _ Hm) as Hall.
  rewrite Forall_forall in Hall.
  destruct Hm as (Hnd & Hperm & Hlen & Hinj & Hlive).
  pose proof (is_fresh (dom wt)) as Hfw. pose proof (is_fresh (dom (heap st))) as Hft.
  set (tw := fresh (dom wt)) in *. cbn [addTask fst snd].
  set (newTask := fresh (dom (heap st))) in *.
  assert (tw ∉ tws) as Hout.
  { intros Hin. apply Hfw, elem_of_dom. auto. }
  assert (∀ tw' t, wt !! tw' = Some t → t ≠ newTask) as Hold.
  { intros tw' t Htw' ->. apply Hft, elem_of_dom. eauto. }
  split_and!; cbn [tasks heap].
  - apply NoDup_app. split_and!; [done| |apply NoDup_singleton].
    by intros tw' Hin ->%list_elem_of_singleton.
  - rewrite omap_app. cbn [omap list_omap]. rewrite lookup_insert_eq.
    rewrite <- Hperm, (comm (++)). cbn. constructor.
    erewrite list_omap_ext; [done|]. apply Forall_Forall2_diag, Forall_forall.
    intros tw' Hin. apply lookup_insert_ne. by intros <-.
  - rewrite length_app. cbn. lia.
  - intros tw1 tw2 t. rewrite !lookup_insert.
    destruct (decide (tw = tw1)) as [<-|], (decide (tw = tw2)) as [<-|];
      intros H1 H2; try done.
    + injection H1 as <-. by destruct (Hold tw2 _ H2).
    + injection H2 as <-. by destruct (Hold tw1 _ H1).
    + by eapply Hinj.
  - intros tw' t. rewrite !lookup_insert.
    destruct (decide (tw = tw')) as [<-|]; intros Htw'.
    + injection Htw' as <-. by rewrite decide_True.
    + case_decide; [done|]. by eapply Hlive.
Qed.

(** The widgets [setupUI] makes. *)
Lemma foldl_addTaskWidget ts : ∀ m,
  ∃ new,
    taskWidgets (foldl (λ m t, (addTaskWidget t m).1) m ts) = taskWidgets m ++ new ∧
    taskStore (foldl (λ m t, (addTaskWidget t m).1) m ts) = taskStore m ∧
    Forall2 (λ tw t, widget_task (foldl (λ m t, (addTaskWidget t m).1) m ts) !! tw
                     = Some t) new ts ∧
    NoDup new ∧
    (∀ tw, tw ∈ new → widget_task m !! tw = None) ∧
    (∀ tw t, widget_task m !! tw = Some t →
       widget_task (foldl (λ m t, (addTaskWidget t m).1) m ts) !! tw = Some t) ∧
    dom (widget_task (foldl (λ m t, (addTaskWidget t m).1) m ts))
      = dom (widget_task m) ∪ list_to_set new.
Proof.
  induction ts as [|t ts IH]; intros m.
  - exists []. rewrite app_nil_r. split_and!; try done; try (by constructor).
    + by intros tw Htw%elem_of_nil.
    + cbn. set_solver.
  - cbn [foldl]. destruct (IH (addTaskWidget t m).1)
      as (new & Hws & Hst & Hall & Hnd & Hfresh & Hkeep & Hdom).
    pose proof (is_fresh (dom (widget_task m))) as Hf.
    cbn [addTaskWidget fst taskWidgets taskStore widget_task] in *.
    set (tw := fresh (dom (widget_task m))) in *.
    assert (tw ∉ new) as Hout.
    { intros Hin. specialize (Hfresh tw Hin). by rewrite lookup_insert_eq in Hfresh. }
    exists (tw :: new). split_and!.
    + by rewrite Hws, <- app_assoc.
    + done.
    + constructor; [|done]. apply Hkeep, lookup_insert_eq.
    + by apply NoDup_cons.
    + intros tw' [->|Hin]%elem_of_cons.
      * by apply not_elem_of_dom.
      * specialize (Hfresh tw' Hin). rewrite lookup_insert_ne in Hfresh; [done|].
        by intros <-.
    + intros tw' t' Htw'. apply Hkeep. rewrite lookup_insert_ne; [done|].
      intros <-. apply Hf, elem_of_dom. eauto.
    + rewrite Hdom, dom_insert_L. set_solver.
Qed.

Lemma setupUI_match st :
  wf st →
  widgets_match (widget_task (setupUI st)) (taskWidgets (setupUI st)) st ∧
  taskStore (setupUI st) = st.
Proof.
  intros [Hnd Hlive]%wf_alt. unfold setupUI. cbn [update widget_task taskWidgets taskStore].
  destruct (foldl_addTaskWidget (tasks st) (mkWindow st ∅ [] false false []))
    as (new & Hws & Hst & Hall & Hndw & _ & _ & Hdom).
  cbn [taskWidgets taskStore widget_task] in *.
  assert (∀ tw t, widget_task (foldl (λ m t, (addTaskWidget t m).1)
                                 (mkWindow st ∅ [] false false []) (tasks st)) !! tw
                  = Some t → ∃ i : nat, new !! i = Some tw) as Hin.
  { intros tw t Htw. apply list_elem_of_lookup.
    apply elem_of_dom_2 in Htw. rewrite Hdom in Htw. set_solver. }
  rewrite Hws, Hst. split; [|done]. cbn [app]. split_and!.
  - done.
  - by rewrite (omap_Forall2_gen _ _ _ Hall).
  - by eapply Forall2_length.
  - intros tw1 tw2 t H1 H2.
    destruct (Hin _ _ H1) as [i Hi]. destruct (Hin _ _ H2) as [j Hj].
    destruct (Forall2_lookup_l _ _ _ _ _ Hall Hi) as (t1 & Hti & Ht1).
    destruct (Forall2_lookup_l _ _ _ _ _ Hall Hj) as (t2 & Htj & Ht2).
    assert (t1 = t) as -> by congruence. assert (t2 = t) as -> by congruence.
    assert (i = j) as -> by exact (NoDup_lookup (tasks st) i j t Hnd Hti Htj).
    congruence.
  - intros tw t Htw. destruct (Hin _ _ Htw) as [i Hi].
    destruct (Forall2_lookup_l _ _ _ _ _ Hall Hi) as (t1 & Hti & Ht1).
    apply Hlive. apply list_elem_of_lookup_2 in Hti. congruence.
Qed.

(** ** The window between events *)

Lemma consistent_intro m st wt tws :
  taskStore m = st → widget_task m = wt → taskWidgets m = tws →
  wf st → tidy st → widgets_match wt tws st → consistent m.
Proof. intros <- <- <- H1 H2 H3. exact (conj H1 (conj H2 H3)). Qed.

Lemma same_fields_live st st' l :
  same_fields st st' → is_Some (heap st !! l) → is_Some (heap st' !! l).
Proof.
  intros [_ Hf] Hl. apply (fmap_is_Some fields). rewrite Hf. by apply fmap_is_Some.
Qed.

Lemma consistent_pass m hide sort :
  consistent m →
  consistent (MainWindow_applyFilterAndSorting (with_buttons hide sort m)).
Proof.
  intros (Hwf & Htidy & Hmatch).
  eapply consistent_intro; [done..| | |].
  - eapply same_fields_wf; [apply applyFilterAndSorting_same_fields|done].
  - by apply applyFilterAndSorting_tidy.
  - eapply widgets_match_frame; [| |exact Hmatch]; [done|].
    intros l. apply same_fields_live, applyFilterAndSorting_same_fields.
Qed.

Lemma with_buttons_id m : with_buttons (hideButton m) (sortButton m) m = m.
Proof. by destruct m. Qed.

Lemma consistent_setter (f : Task → Task) tw m :
  (∀ t, index (f t) = index t) →
  consistent m → consistent (on_task (λ t, alter f t) tw m).
Proof.
  intros Hf (Hwf & Htidy & Hmatch). unfold on_task.
  destruct (widget_task m !! tw) as [t|]; [|exact (conj Hwf (conj Htidy Hmatch))].
  eapply consistent_intro; [done..| | |].
  - eapply same_index_wf; [| |exact Hwf]; [done|]. intros l. by apply setter_index.
  - eapply same_index_tidy; [| |exact Htidy]; [done|]. intros l. by apply setter_index.
  - eapply widgets_match_frame; [| |exact Hmatch]; [done|].
    intros l Hl. cbn [heap]. by apply lookup_alter_is_Some.
Qed.

Lemma consistent_handle e m : consistent m → consistent (handle e m).
Proof.
  intros Hm. destruct e as [| | |tw text|tw value|tw|tw i|tw|]; cbn [handle].
  - (* onAddTask *)
    destruct Hm as (Hwf & Htidy & Hmatch). unfold onAddTask.
    cbn [addTask addTaskWidget with_store widget_task taskWidgets taskStore
         hideButton sortButton deletedTaskWidgets].
    set (st1 := mkStore _ _). change st1 with (addTask (taskStore m)).1 in *.
    eapply consistent_intro; [done..| | |].
    + eapply same_fields_wf; [apply applyFilterAndSorting_same_fields|].
      by apply addTask_wf.
    + apply applyFilterAndSorting_tidy; [by apply addTask_wf|by apply addTask_tidy].
    + eapply widgets_match_frame; [| |by apply widgets_match_add]; [done|].
      intros l. apply same_fields_live, applyFilterAndSorting_same_fields.
  - by apply consistent_pass.
  - by apply consistent_pass.
  - by apply (consistent_setter (λ t, mkTask (Some text) (priority t) (status t) (index t))).
  - by apply (consistent_setter (λ t, mkTask (name t) value (status t) (index t))).
  - rewrite <- (with_buttons_id m) at 1. by apply consistent_pass.
  - set (m1 := on_task _ tw m).
    assert (consistent m1) as Hm1
      by (by apply (consistent_setter
                      (λ t, mkTask (name t) (priority t) i (index t)))).
    rewrite <- (with_buttons_id m1) at 1. by apply consistent_pass.
  - (* the delete button *)
    destruct (widget_task m !! tw) as [t|] eqn:Htw; [|done].
    destruct Hm as (Hwf & Htidy & Hmatch).
    eapply consistent_intro; [done..| | |].
    + by apply deleteTask_wf.
    + by apply deleteTask_tidy.
    + by apply widgets_match_delete.
  - destruct Hm as (Hwf & Htidy & Hmatch). by eapply consistent_intro.
Qed.

Lemma consistent_run es : ∀ m, consistent m → consistent (run es m).
Proof.
  induction es as [|e es IH]; intros m Hm; [done|].
  cbn [run foldl]. apply IH. by apply consistent_handle.
Qed.

Lemma resetTasks_tidy st :
  (∀ l, is_Some (heap st !! l) → l ∈ tasks st) → tidy (resetTasks st).
Proof.
  intros Hall l t Ht. cbn [resetTasks tasks heap] in *.
  assert (l ∈ tasks st) as Hl.
  { apply Hall. apply (enumerate_assign_is_Some (tasks st) 0). by rewrite Ht. }
  rewrite decide_True by done.
  destruct (enumerate_assign_elem _ 0 (heap st) l Hl) as (n & _ & Hn).
  rewrite Hn in Ht. destruct (heap st !! l); simplify_eq/=. lia.
Qed.

Lemma TaskStore_init_tidy fs tasksFile st :
  TaskStore_init fs tasksFile = Return st → tidy st.
Proof.
  unfold TaskStore_init. destruct (loadTasks fs tasksFile) as [ts|e]; [|done].
  intros [= <-]. apply resetTasks_tidy.
  destruct (foldl_alloc ts (mkStore ∅ [])) as (ls & Htasks & _ & _ & Hdom).
  { apply wf_alt. split; [constructor|]. by intros l Hl%elem_of_nil. }
  intros l Hl%elem_of_dom. rewrite Htasks, Hdom in *. cbn in *. set_solver.
Qed.

Lemma window_start_consistent st hide sort :
  wf st → tidy st → consistent (window_start st hide sort).
Proof.
  intros Hwf Htidy. unfold window_start. apply consistent_pass.
  destruct (setupUI_match st Hwf) as [Hmatch Hst].
  eapply consistent_intro; [done..| | |]; by rewrite ?Hst.
Qed.

(** X12.  Whatever the user does, the window stays consistent.  Start
    from any store [TaskStore.__init__] returned and any two button states
    read by [loadSettings], and run any sequence of events (add, sort and
    hide toggles, edits of name, priority and status, the re-sort on
    leaving a priority widget, delete clicks on any widget made so far,
    resizes).  Then the store holds each live object once, the listed
    widgets are distinct and their tasks are exactly the tasks of the store,
    no two widgets share a task, every task in the store has an index of at
    least [-1] and every object outside it has the index [-2]. *)
Theorem window_consistent (fs : gmap string file) (tasksFile : string)
    (st : TaskStore) (hide sort : bool) (es : list event) :
  TaskStore_init fs tasksFile = Return st →
  consistent (run es (window_start st hide sort)).
Proof.
  intros Hinit. apply consistent_run, window_start_consistent.
  - by eapply TaskStore_init_wf.
  - by eapply TaskStore_init_tidy.
Qed.

Lemma window_consistent_witness :
  consistent
    (run [AddTaskClicked; CurrentIndexChanged 1 2; DeleteClicked 1; DeleteClicked 1;
          HideClicked; ValueChanged 2 5; AllowSorting 2]
       (window_start (resetTasks (store_of [Task_default])) true false)).
Proof.
  apply (window_consistent sample_fs "/tmp/none.xml"). reflexivity.
Defined.

(** ** Deleted widgets *)

Lemma filter_single {A} (P : A → Prop) `{∀ x, Decision (P x)} (l : list A) (x : A) :
  NoDup l → x ∈ l → (∀ y, y ∈ l → P y ↔ y = x) → filter P l = [x].
Proof.
  induction l as [|a l IH]; intros Hnd Hx HP; [by apply elem_of_nil in Hx|].
  apply NoDup_cons in Hnd as [Ha Hnd]. rewrite filter_cons.
  apply elem_of_cons in Hx as [->|Hx].
  - rewrite decide_True by (apply HP; [by left|done]). f_equal.
    apply filter_none, Forall_forall. intros y Hy HPy.
    apply HP in HPy; [|by right]. by subst.
  - rewrite decide_False.
    + apply IH; [done..|]. intros y Hy. apply HP. by right.
    + intros HPa. apply HP in HPa; [|by left]. by subst.
Qed.

(** A widget is marked exactly when its task is out of the store. *)
Lemma marked_iff st wt tw t :
  tidy st → wt !! tw = Some t → is_Some (heap st !! t) →
  Is_true (marked st wt tw) ↔ t ∉ tasks st.
Proof.
  intros Htidy Htw [x Hx]. unfold marked. rewrite Htw. cbn. rewrite Hx.
  specialize (Htidy t x Hx). destruct (decide (t ∈ tasks st)) as [Hin|Hout].
  - destruct (index x =? -2) eqn:Hi; [lia|]. cbn. tauto.
  - rewrite Htidy. cbn. tauto.
Qed.

Lemma widgets_match_elem wt tws st tw t :
  widgets_match wt tws st → tw ∈ tws → wt !! tw = Some t → t ∈ tasks st.
Proof.
  intros (_ & Hperm & _) Hin Htw. rewrite <- Hperm.
  apply list_elem_of_omap. eauto.
Qed.

Lemma update_none m : consistent m → deletedTaskWidgets (update m) = [].
Proof.
  intros (Hwf & Htidy & Hmatch). cbn [update deletedTaskWidgets].
  apply filter_none, Forall_forall. intros tw Hin Hmark.
  pose proof (widgets_match_listed _ _ _ Hmatch) as Hall.
  rewrite Forall_forall in Hall. destruct (Hall tw Hin) as [t Htw].
  apply (marked_iff _ _ tw t) in Hmark; [|done..|].
  - apply Hmark. by eapply widgets_match_elem.
  - destruct Hmatch as (_ & _ & _ & _ & Hlive). by eapply Hlive.
Qed.

Lemma with_store_id m : with_store (taskStore m) m = m.
Proof. by destruct m. Qed.

Lemma store_of_tidy ts : tidy (resetTasks (store_of ts)).
Proof.
  apply resetTasks_tidy. unfold store_of.
  destruct (foldl_alloc ts (mkStore ∅ [])) as (ls & Htasks & _ & _ & Hdom).
  { apply wf_alt. split; [constructor|]. by intros l Hl%elem_of_nil. }
  intros l Hl%elem_of_dom. rewrite Htasks, Hdom in *. cbn in *. set_solver.
Qed.

(** X13.  A click on the delete button of a listed widget, in a consistent
    window.  The three slots run in connection order ([TaskStore.deleteTask],
    [update], [MainWindow.deleteTask]), so [update] still sees the widget in
    [self.taskWidgets] and finds its task marked: [self.deletedTaskWidgets]
    is exactly the clicked widget.  After the click the widget is out of
    [self.taskWidgets], its task is out of the store and carries the index
    [-2].  A second click on the same button changes neither the store nor
    the widget list, and [self.deletedTaskWidgets] is empty then. *)
Theorem delete_click (m : MainWindow) (tw t : positive) :
  consistent m → tw ∈ taskWidgets m → widget_task m !! tw = Some t →
  deletedTaskWidgets (handle (DeleteClicked tw) m) = [tw] ∧
  (tw ∉ taskWidgets (handle (DeleteClicked tw) m)) ∧
  (t ∉ tasks (taskStore (handle (DeleteClicked tw) m))) ∧
  index_at (taskStore (handle (DeleteClicked tw) m)) t = Some (-2) ∧
  taskStore (handle (DeleteClicked tw) (handle (DeleteClicked tw) m))
  = taskStore (handle (DeleteClicked tw) m) ∧
  taskWidgets (handle (DeleteClicked tw) (handle (DeleteClicked tw) m))
  = taskWidgets (handle (DeleteClicked tw) m) ∧
  deletedTaskWidgets (handle (DeleteClicked tw) (handle (DeleteClicked tw) m)) = [].
Proof.
  intros Hm Hin Htw.
  pose proof (consistent_handle (DeleteClicked tw) m Hm) as Hm'.
  destruct Hm as (Hwf & Htidy & Hmatch).
  assert (∀ m1, widget_task m1 !! tw = Some t →
            handle (DeleteClicked tw) m1
            = MainWindow_deleteTask tw
                (update (with_store (deleteTask t (taskStore m1)) m1))) as Hstep.
  { intros m1 H1. cbn [handle]. by rewrite H1. }
  pose proof (Hstep m Htw) as Hclick.
  set (m' := handle (DeleteClicked tw) m) in *.
  assert (taskStore m' = deleteTask t (taskStore m)) as Hst' by (by rewrite Hclick).
  assert (widget_task m' = widget_task m) as Hwt' by (by rewrite Hclick).
  assert (taskWidgets m' = filter (λ taskWidget, tw ≠ taskWidget) (taskWidgets m))
    as Htws' by (by rewrite Hclick).
  assert (deletedTaskWidgets m'
          = filter (λ tw, marked (deleteTask t (taskStore m)) (widget_task m) tw)
              (taskWidgets m)) as Hdel' by (by rewrite Hclick).
  assert (handle (DeleteClicked tw) m' = MainWindow_deleteTask tw (update m')) as Hagain.
  { rewrite Hstep by (by rewrite Hwt').
    by rewrite Hst', deleteTask_twice, <- Hst', with_store_id. }
  assert (∀ l, is_Some (heap (taskStore m) !! l) →
               is_Some (heap (deleteTask t (taskStore m)) !! l)) as Hkeep.
  { intros l Hl. unfold deleteTask, resetTasks. cbn [heap].
    apply enumerate_assign_is_Some. unfold assign. by apply lookup_alter_is_Some. }
  assert (∀ tw' t', widget_task m !! tw' = Some t' → is_Some (heap (taskStore m) !! t'))
    as Hlive by (by destruct Hmatch as (_ & _ & _ & _ & Hlive)).
  pose proof (deleteTask_tidy t _ Htidy) as Htidy'.
  assert (t ∉ tasks (deleteTask t (taskStore m))) as Hout.
  { rewrite deleteTask_tasks, list_elem_of_filter. tauto. }
  rewrite Hagain, Hdel', Htws', Hst'. split_and!.
  - apply filter_single.
    + by destruct Hmatch.
    + done.
    + intros tw' Hin'.
      pose proof (widgets_match_listed _ _ _ Hmatch) as Hall.
      rewrite Forall_forall in Hall. destruct (Hall tw' Hin') as [t' Htw'].
      rewrite (marked_iff _ _ tw' t' Htidy' Htw') by (eapply Hkeep, Hlive, Htw').
      rewrite deleteTask_tasks, list_elem_of_filter.
      pose proof (widgets_match_elem _ _ _ tw' t' Hmatch Hin' Htw') as Hin''.
      destruct Hmatch as (_ & _ & _ & Hinj & _). split.
      * intros Hno. destruct (decide (t = t')) as [<-|Hne]; [by eapply Hinj|].
        by destruct Hno.
      * intros ->. assert (t' = t) as -> by congruence. tauto.
  - rewrite list_elem_of_filter. tauto.
  - done.
  - destruct (Hkeep t) as [x Hx]; [by eapply Hlive|].
    unfold index_at. rewrite Hx. cbn. f_equal.
    specialize (Htidy' t x Hx). by rewrite decide_False in Htidy'.
  - cbn [MainWindow_deleteTask update taskStore]. exact Hst'.
  - cbn [MainWindow_deleteTask update taskWidgets]. rewrite Htws'.
    rewrite list_filter_filter. apply list_filter_iff. tauto.
  - cbn [MainWindow_deleteTask deletedTaskWidgets]. by apply update_none.
Qed.

Lemma delete_click_witness :
  deletedTaskWidgets (handle (DeleteClicked 2) (window_start abc_store true true))
  = [2%positive] ∧
  index_at (taskStore (handle (DeleteClicked 2) (window_start abc_store true true))) 2
  = Some (-2).
Proof.
  destruct (delete_click (window_start abc_store true true) 2 2)
    as (H1 & _ & _ & H2 & _).
  - apply window_start_consistent; [by_evaluation|apply store_of_tidy].
  - by_evaluation.
  - reflexivity.
  - by split.
Defined.

(** X15.  In a consistent window [update] finds no widget to delete:
    every listed widget has its task in the store, and such a task never
    carries the index [-2]. *)
Theorem update_deletes_nothing (m : MainWindow) :
  consistent m → deletedTaskWidgets (update m) = [].
Proof. apply update_none. Qed.

Lemma update_deletes_nothing_witness :
  deletedTaskWidgets
    (update (run [AddTaskClicked; DeleteClicked 1; HideClicked]
               (window_start (resetTasks (store_of [Task_default])) false true))) = [].
Proof.
  apply update_deletes_nothing.
  apply consistent_run, window_start_consistent.
  - by_evaluation.
  - apply store_of_tidy.
Defined.

(** ** Adding a task *)

Lemma values_insert_out (h : gmap positive Task) l t ls :
  l ∉ ls → values (<[l := t]> h) ls = values h ls.
Proof.
  intros Hout. unfold values. apply list_omap_ext, Forall_Forall2_diag, Forall_forall.
  intros l' Hl'. apply lookup_insert_ne. by intros <-.
Qed.

(** X14.  [onAddTask] in a window whose store holds each live object once.
    The new task is a new object with the defaults of [Task.__init__]
    (name [new task], priority 1, status 0), first in [self.tasks]; its
    widget is a new object, last in [self.taskWidgets].  The pass that
    follows never hides it and gives it as index the number of visible
    older tasks shown above it: those of priority at most 0 when the sort
    button is unchecked, those of priority at least 1 when it is checked. *)
Theorem onAddTask_spec (m : MainWindow) :
  wf (taskStore m) →
  (fresh (dom (heap (taskStore m))) ∉ tasks (taskStore m)) ∧
  tasks (taskStore (onAddTask m))
  = fresh (dom (heap (taskStore m))) :: tasks (taskStore m) ∧
  taskWidgets (onAddTask m) = taskWidgets m ++ [fresh (dom (widget_task m))] ∧
  widget_task m !! fresh (dom (widget_task m)) = None ∧
  widget_task (onAddTask m) !! fresh (dom (widget_task m))
  = Some (fresh (dom (heap (taskStore m)))) ∧
  fields <$> heap (taskStore (onAddTask m)) !! fresh (dom (heap (taskStore m)))
  = Some (Some "new task"%string, 1, 0) ∧
  index_at (taskStore (onAddTask m)) (fresh (dom (heap (taskStore m))))
  = Some (Z.of_nat
            (count_visible (hideButton m)
               (if sortButton m then (λ p, 1 <=? p) else (λ p, p <? 1))
               (stored (taskStore m)))).
Proof.
  intros Hwf. pose proof (is_fresh (dom (heap (taskStore m)))) as Hfresh.
  pose proof Hwf as [Hnd Hlive]%wf_alt.
  assert (fresh (dom (heap (taskStore m))) ∉ tasks (taskStore m)) as Hout.
  { intros Hin. apply Hfresh, elem_of_dom. auto. }
  unfold onAddTask.
  cbn [addTask addTaskWidget with_store MainWindow_applyFilterAndSorting update
       widget_task taskWidgets taskStore hideButton sortButton].
  set (newTask := fresh (dom (heap (taskStore m)))) in *.
  set (st1 := mkStore (<[newTask := Task_default]> (heap (taskStore m)))
                (newTask :: tasks (taskStore m))).
  assert (wf st1) as Hwf1 by exact (addTask_wf (taskStore m) Hwf).
  split_and!.
  - done.
  - done.
  - done.
  - apply not_elem_of_dom, is_fresh.
  - apply lookup_insert_eq.
  - destruct (applyFilterAndSorting_same_fields (hideButton m) (sortButton m) st1)
      as [_ Hf].
    rewrite Hf. unfold st1. cbn [heap]. by rewrite lookup_insert_eq.
  - rewrite (apply_rank st1 (hideButton m) Hwf1 (sortButton m) [] newTask
               (tasks (taskStore m)) Task_default);
      [|done|apply lookup_insert_eq].
    unfold st1. cbn [heap]. rewrite (values_insert_out _ _ _ (tasks (taskStore m))) by done.
    unfold rank_of, stays. cbn [status Task_default Task_init values omap list_omap].
    rewrite andb_false_r. cbn [negb priority count_visible filter length].
    unfold stored, values. destruct (sortButton m); reflexivity.
Qed.

Lemma onAddTask_spec_witness :
  tasks (taskStore (onAddTask (window_start abc_store true true))) = [4; 1; 2; 3]%positive ∧
  index_at (taskStore (onAddTask (window_start abc_store true true))) 4 = Some 1.
Proof.
  destruct (onAddTask_spec (window_start abc_store true true))
    as (_ & H1 & _ & _ & _ & _ & H2); [by_evaluation|].
  split; [exact H1|exact H2].
Defined.

(** ** Where the widgets move *)

(** X16.  Between two events [getNewPosition] always finds a branch: for
    every listed widget of a consistent window the task is in the store and
    its index is at least [-1], so the end value of the animation is the row
    of the index or, for a hidden task, the place above the top.  No listed
    widget drops out, and [y] is never unbound. *)
Theorem getNewPosition_bound (m : MainWindow) (tw : positive) :
  consistent m → tw ∈ taskWidgets m →
  ∃ t x, widget_task m !! tw = Some t ∧ heap (taskStore m) !! t = Some x ∧
         t ∈ tasks (taskStore m) ∧
         end_value m tw
         = Some (if 0 <=? index x then Row (index x) else Above (-1)).
Proof.
  intros (Hwf & Htidy & Hmatch) Hin.
  pose proof (widgets_match_listed _ _ _ Hmatch) as Hall.
  rewrite Forall_forall in Hall. destruct (Hall tw Hin) as [t Htw].
  pose proof (widgets_match_elem _ _ _ tw t Hmatch Hin Htw) as Ht.
  destruct (wf_live _ t Hwf Ht) as [x Hx].
  exists t, x. split_and!; [done..|].
  unfold end_value. rewrite Htw. cbn. rewrite Hx. cbn.
  specialize (Htidy t x Hx). rewrite decide_True in Htidy by done.
  unfold getNewPosition. destruct (0 <=? index x) eqn:H0; [done|].
  assert (index x = -1) as -> by lia. done.
Qed.

Lemma getNewPosition_bound_witness :
  ∃ t x, widget_task (window_start abc_store true true) !! 3%positive = Some t ∧
         heap (taskStore (window_start abc_store true true)) !! t = Some x ∧
         t ∈ tasks (taskStore (window_start abc_store true true)) ∧
         end_value (window_start abc_store true true) 3
         = Some (if 0 <=? index x then Row (index x) else Above (-1)).
Proof.
  apply getNewPosition_bound.
  - apply window_start_consistent; [by_evaluation|apply store_of_tidy].
  - by_evaluation.
Defined.

(** X17.  The [update] that runs in the middle of a delete click, after
    [TaskStore.deleteTask] and before [MainWindow.deleteTask].  The clicked
    widget is still listed and drops to the height of its parent; every
    other listed widget moves to a row, the storage position of its task
    among the remaining ones, whatever the two buttons say. *)
Theorem getNewPosition_deleting (m : MainWindow) (tw t : positive) :
  consistent m → tw ∈ taskWidgets m → widget_task m !! tw = Some t →
  end_value (with_store (deleteTask t (taskStore m)) m) tw = Some ParentHeight ∧
  ∀ tw', tw' ∈ taskWidgets m → tw' ≠ tw →
    ∃ (n : nat) t',
      widget_task m !! tw' = Some t' ∧
      tasks (deleteTask t (taskStore m)) !! n = Some t' ∧
      end_value (with_store (deleteTask t (taskStore m)) m) tw'
      = Some (Row (Z.of_nat n)).
Proof.
  intros (Hwf & Htidy & Hmatch) Hin Htw.
  pose proof (widgets_match_listed _ _ _ Hmatch) as Hall.
  rewrite Forall_forall in Hall.
  pose proof Hwf as [Hnd Hlive]%wf_alt.
  unfold end_value. cbn [with_store widget_task taskStore]. split.
  - rewrite Htw. cbn.
    pose proof (widgets_match_elem _ _ _ tw t Hmatch Hin Htw) as Ht.
    destruct (Hlive t Ht) as [x Hx].
    unfold deleteTask, resetTasks. cbn [heap tasks].
    rewrite enumerate_assign_notin by (rewrite list_elem_of_filter; tauto).
    rewrite lookup_assign, decide_True, Hx by done. done.
  - intros tw' Hin' Hne. destruct (Hall tw' Hin') as [t' Htw'].
    pose proof (widgets_match_elem _ _ _ tw' t' Hmatch Hin' Htw') as Ht'.
    assert (t ≠ t') as Htt.
    { intros <-. destruct Hmatch as (_ & _ & _ & Hinj & _). apply Hne. by eapply Hinj. }
    assert (t' ∈ tasks (deleteTask t (taskStore m))) as Hkept.
    { rewrite deleteTask_tasks. by apply list_elem_of_filter. }
    apply list_elem_of_lookup in Hkept as [n Hn].
    exists n, t'. split_and!; [done..|]. rewrite Htw'. cbn.
    rewrite deleteTask_tasks in Hn.
    unfold deleteTask, resetTasks. cbn [heap tasks].
    rewrite (enumerate_assign_lookup _ _ _ n t') by (by try apply NoDup_filter).
    rewrite lookup_assign, decide_False by done.
    destruct (Hlive t' Ht') as [x' ->]. cbn.
    unfold getNewPosition. cbn [index set_index].
    rewrite Z.add_0_l. by destruct (Z.leb_spec 0 (Z.of_nat n)); [|lia].
Qed.

Lemma getNewPosition_deleting_witness :
  end_value (with_store (deleteTask 1 (taskStore (window_start abc_store true true)))
               (window_start abc_store true true)) 1 = Some ParentHeight ∧
  ∃ (n : nat) t',
    widget_task (window_start abc_store true true) !! 3%positive = Some t' ∧
    tasks (deleteTask 1 (taskStore (window_start abc_store true true))) !! n = Some t' ∧
    end_value (with_store (deleteTask 1 (taskStore (window_start abc_store true true)))
                 (window_start abc_store true true)) 3 = Some (Row (Z.of_nat n)).
Proof.
  destruct (getNewPosition_deleting (window_start abc_store true true) 1 1) as [H1 H2].
  - apply window_start_consistent; [by_evaluation|apply store_of_tidy].
  - by_evaluation.
  - reflexivity.
  - split; [exact H1|]. apply H2; [by_evaluation|done].
Defined.

(** ** Changing the status *)

(** X18.  Choosing status [i] in the status widget of a task of the store
    runs [Task.setStatus] and then a pass.  Afterwards the task has the
    status [i] with its name and priority as before, and it is hidden
    (index [-1]) exactly when the hide button is checked and [i] is 2;
    otherwise its index is a row, 0 or more. *)
Theorem status_change (m : MainWindow) (tw t : positive) (x0 : Task) (i : Z) :
  wf (taskStore m) → t ∈ tasks (taskStore m) →
  heap (taskStore m) !! t = Some x0 → widget_task m !! tw = Some t →
  ∃ x, heap (taskStore (handle (CurrentIndexChanged tw i) m)) !! t = Some x ∧
       fields x = (name x0, priority x0, i) ∧
       if hideButton m && (i =? 2) then index x = -1 else 0 ≤ index x.
Proof.
  intros Hwf Ht Hx0 Htw. cbn [handle]. unfold on_task. rewrite Htw.
  unfold MainWindow_applyFilterAndSorting.
  cbn [update with_store taskStore hideButton sortButton].
  set (st1 := mkStore (setStatus t i (heap (taskStore m))) (tasks (taskStore m))).
  assert (wf st1) as Hwf1.
  { eapply same_index_wf; [| |exact Hwf]; [done|]. intros l. by apply setter_index. }
  assert (heap st1 !! t = Some (mkTask (name x0) (priority x0) i (index x0))) as Hx1.
  { unfold st1, setStatus. cbn [heap]. by rewrite lookup_alter_eq, Hx0. }
  destruct (list_elem_of_split _ _ Ht) as (l1 & l2 & Hsplit).
  pose proof (apply_rank st1 (hideButton m) Hwf1 (sortButton m) l1 t l2 _ Hsplit Hx1)
    as Hrank.
  destruct (applyFilterAndSorting_same_fields (hideButton m) (sortButton m) st1)
    as [_ Hf].
  specialize (Hf t). rewrite Hx1 in Hf. unfold index_at in Hrank.
  destruct (heap (applyFilterAndSorting (hideButton m) (sortButton m) st1) !! t)
    as [x|]; [|done].
  exists x. cbn in Hf, Hrank. injection Hrank as Hrank.
  split_and!; [done|by apply (inj Some) in Hf|]. rewrite Hrank. unfold rank_of, stays. cbn [status].
  destruct (hideButton m && (i =? 2)); cbn [negb]; [done|lia].
Qed.

Lemma status_change_witness :
  ∃ x, heap (taskStore (handle (CurrentIndexChanged 2 2)
                          (window_start abc_store true false))) !! 2%positive = Some x ∧
       fields x = (name task_B, priority task_B, 2) ∧
       index x = -1.
Proof.
  destruct (status_change (window_start abc_store true false) 2 2
              (set_index 0 task_B) 2) as (x & H1 & H2 & H3);
    [by_evaluation|by_evaluation|reflexivity|reflexivity|].
  exists x. split_and!; [exact H1|exact H2|exact H3].
Defined.
